(** * Sequential multi-agent orchestration of ragsaurus

    A shallow embedding of [EnhanceMetadataTask] (the task that threads one
    document through the configured agents), of its [RunLogger], of
    [DocumentProcessingTeam] and of the workflow that calls the team,
    followed by the properties of the orchestration pipeline.

    Modelling conventions.
    - JavaScript strings are [string]s; a string is truthy iff it is not
      empty.
    - Scores and durations are JavaScript numbers that the agents of the
      repository produce as integers; they are modelled in [Z].  A number
      is truthy iff it is not zero.  [Math.round (s / n)] on integers is
      [(2 * s + n) / (2 * n)] with the flooring division of [Z].
    - Asynchronous calls are run to completion in program order (the
      pipeline awaits every call), so [async]/[await] is plain sequencing.
    - The file system is a finite map from paths to contents.  Every call
      into [fs-extra] made by the task first consults a schedule of faults
      chosen by the environment, so each call may fail for reasons outside
      the program (permissions, full disk, ...).
    - An agent is an arbitrary state transformer over the files and over
      an external state (upstream services), returning a result object or
      throwing.  The metadata argument of [analyzeContent], which the task
      always passes empty, is left out.
    - [Date.now ()] reads the next value of an arbitrary stream.
    - The world records a trace of the file-system calls made by the task
      and of the agent invocations, in program order. *)

From stdpp Require Import base strings list gmap fin_maps pretty.
From Stdlib Require Import Ascii ZArith Lia.

Set Default Proof Using "Type".

(** ** Results of fallible computations *)

(** A JavaScript call either returns a value or throws an [Error] carrying
    a message. *)
Inductive Result (A : Type) : Type :=
  | Ok (a : A)
  | Throw (message : string).
Arguments Ok {A} a.
Arguments Throw {A} message.

(** ** Small string functions of the JavaScript runtime *)

Definition isAlnum (c : ascii) : bool :=
  let n := Ascii.N_of_ascii c in
  ((48 <=? n) && (n <=? 57) || (65 <=? n) && (n <=? 90)
   || (97 <=? n) && (n <=? 122))%N.

(** [name.replace(/[^a-z0-9]/gi, '-')] *)
Fixpoint replaceNonAlnum (s : string) : string :=
  match s with
  | EmptyString => EmptyString
  | String c r =>
      String (if isAlnum c then c else "-"%char) (replaceNonAlnum r)
  end.

(** The white space recognised by [\s] among the ASCII characters. *)
Definition isSpace (c : ascii) : bool :=
  let n := Ascii.N_of_ascii c in
  ((9 <=? n) && (n <=? 13) || (n =? 32))%N.

(** Number of matches of [/\s+/] in a string: the maximal runs of white
    space.  [inRun] tells whether the previous character was white. *)
Fixpoint spaceRuns (inRun : bool) (s : string) : nat :=
  match s with
  | EmptyString => 0
  | String c r =>
      if isSpace c
      then (if inRun then spaceRuns true r else S (spaceRuns true r))
      else spaceRuns false r
  end.

(** [content.split(/\s+/).length] *)
Definition wordCount (s : string) : Z := Z.of_nat (S (spaceRuns false s)).

(** JavaScript truthiness of a string and of a number. *)
Definition truthyStr (s : string) : bool :=
  match s with EmptyString => false | _ => true end.

Definition truthyNum (z : Z) : bool := negb (z =? 0)%Z.

(** [path.join (a, b)] on already normalised segments. *)
Definition pathJoin (a b : string) : string := a +:+ "/" +:+ b.

Fixpoint isPrefix (p s : string) : bool :=
  match p, s with
  | EmptyString, _ => true
  | String a p', String b s' => if Ascii.eqb a b then isPrefix p' s' else false
  | String _ _, EmptyString => false
  end.

(** [path] is [dir] itself or lies below it. *)
Definition under (dir path : string) : bool :=
  String.eqb dir path || isPrefix (dir +:+ "/") path.

(** ** What an agent returns *)

(** The score fields of [enhancedMetadata] that the task recognises,
    together with the names of the other keys of the object. *)
Record Metadata : Type := {
  ragScore : option Z;
  chunkingScore : option Z;
  validationScore : option Z;
  seoScore : option Z;
  otherKeys : list string;
}.

(** The object returned by [analyzeContent], restricted to the fields the
    task looks at.  A field that is absent, [undefined] or of the wrong
    type is [None]. *)
Record AnalysisResult : Type := {
  improvements : option (list string);
  content : option string;
  restructuredContent : option string;
  enhancedMetadata : option Metadata;
}.

(** [{ ...result, content: c }] *)
Definition withContent (r : AnalysisResult) (c : string) : AnalysisResult :=
  {| improvements := improvements r;
     content := Some c;
     restructuredContent := restructuredContent r;
     enhancedMetadata := enhancedMetadata r |}.

(** ** Trace of observable calls *)

Inductive Event : Type :=
  | FsEnsureDir (path : string)
  | FsWriteFile (path data : string)
  | FsReadFile (path : string)
  | FsRemove (path : string)
  | Invoke (agentName handle input : string).

(** ** Documents, per-agent records and statistics *)

(** A document handed over by discovery ([fileInfo]). *)
Record FileInfo : Type := {
  path : string;
  title : string;
  needsEnhancement : bool;
}.

(** One entry of [contentEvolution]; the entry of the original content
    carries no word count. *)
Record ContentStage : Type := {
  stage : string;
  stageContent : string;
  stageWordCount : option Z;
}.

(** One entry of [agentResults]. *)
Record AgentRun : Type := {
  agentName : string;
  agentRole : string;
  result : option AnalysisResult;
  error : option string;
  processingTime : Z;
  contentModified : bool;
  sequencePosition : Z;
}.

Module AgentStat.
Record t : Type := {
  successful : Z;
  failed : Z;
  totalProcessingTime : Z;
  averageProcessingTime : Z;
}.
Definition zero : t :=
  {| successful := 0; failed := 0;
     totalProcessingTime := 0; averageProcessingTime := 0 |}.
End AgentStat.

(** [Math.round (s / n)] for integers [s] and [n > 0]. *)
Definition roundDiv (s n : Z) : Z := ((2 * s + n) / (2 * n))%Z.

(** [updateAgentStats (agentStats, agentName, success, processingTime)];
    the object [agentStats] is a map keyed by agent name. *)
Definition updateAgentStats (agentStats : gmap string AgentStat.t)
    (agentName : string) (success : bool) (processingTime : Z)
    : gmap string AgentStat.t :=
  let agentStats :=
    match agentStats !! agentName with
    | None => <[agentName := AgentStat.zero]> agentStats
    | Some _ => agentStats
    end in
  let s := default AgentStat.zero (agentStats !! agentName) in
  if success then
    let successful := (AgentStat.successful s + 1)%Z in
    let total := (AgentStat.totalProcessingTime s + processingTime)%Z in
    <[agentName :=
        {| AgentStat.successful := successful;
           AgentStat.failed := AgentStat.failed s;
           AgentStat.totalProcessingTime := total;
           AgentStat.averageProcessingTime := roundDiv total successful |}]>
      agentStats
  else
    <[agentName :=
        {| AgentStat.successful := AgentStat.successful s;
           AgentStat.failed := (AgentStat.failed s + 1)%Z;
           AgentStat.totalProcessingTime := AgentStat.totalProcessingTime s;
           AgentStat.averageProcessingTime :=
             AgentStat.averageProcessingTime s |}]>
      agentStats.

(** ** Consolidated score *)

(** [a || d] for an optional number [a]. *)
Definition orElse (a : option Z) (d : Z) : Z :=
  match a with
  | Some z => if truthyNum z then z else d
  | None => d
  end.

(** The score read off one metadata object:
    [ragScore || chunkingScore || validationScore || seoScore || 75]. *)
Definition metadataScore (m : Metadata) : Z :=
  orElse (ragScore m)
    (orElse (chunkingScore m)
       (orElse (validationScore m)
          (orElse (seoScore m) 75))).

(** The body of the [forEach] of [calculateConsolidatedRAGScore]: what one
    entry of [agentResults] pushes on [scores]. *)
Definition pushedScore (r : AgentRun) : list Z :=
  match result r with
  | Some res =>
      match enhancedMetadata res with
      | Some metadata =>
          let score := metadataScore metadata in
          if (0 <? score)%Z then [score] else []
      | None => []
      end
  | None => []
  end.

Definition sumZ (l : list Z) : Z := foldl Z.add 0%Z l.

Definition calculateConsolidatedRAGScore (agentResults : list AgentRun) : Z :=
  let scores := concat (map pushedScore agentResults) in
  if (0 <? Z.of_nat (length scores))%Z
  then roundDiv (sumZ scores) (Z.of_nat (length scores))
  else 75%Z.

(** The keys of a metadata object: the recognised score fields that are
    present and the other keys. *)
Definition keyIfPresent (field : option Z) (key : string) : list string :=
  match field with Some _ => [key] | None => [] end.

Definition metadataKeys (m : Metadata) : list string :=
  keyIfPresent (ragScore m) "ragScore" ++
  keyIfPresent (chunkingScore m) "chunkingScore" ++
  keyIfPresent (validationScore m) "validationScore" ++
  keyIfPresent (seoScore m) "seoScore" ++ otherKeys m.

(** [extractAddedFields]: the set of metadata keys of the successful
    results that do not start with [enhanced_]. *)
Definition extractAddedFields (agentResults : list AgentRun) : gset string :=
  foldl
    (fun (addedFields : gset string) (r : AgentRun) =>
       match result r with
       | Some res =>
           match enhancedMetadata res with
           | Some metadata =>
               foldl
                 (fun (acc : gset string) (field : string) =>
                    if isPrefix "enhanced_" field then acc
                    else acc ∪ {[field]})
                 addedFields (metadataKeys metadata)
           | None => addedFields
           end
       | None => addedFields
       end)
    ∅ agentResults.

Module Enhancement.
(** The record returned by [processFileSequentially]. *)
Record t : Type := {
  filePath : string;
  relativePath : string;
  originalContent : string;
  finalContent : string;
  contentEvolution : list ContentStage;
  agentResults : list AgentRun;
  improvements : list string;
  ragScore : Z;
  addedFields : gset string;
  totalProcessingTime : Z;
  sequentialProcessing : bool;
}.
End Enhancement.

(** ** Batch-level records *)

Module DocError.
(** One entry of the [errors] array of [execute]. *)
Record t : Type := {
  file : string;
  error : string;
}.
End DocError.

Module Proposed.
(** What [createGitHubPR] hands to the pull-request tool for one
    document. *)
Record t : Type := {
  filePath : string;
  relativePath : string;
  enhancedContent : string;
  originalContent : string;
  improvements : list string;
  ragScore : Z;
}.
End Proposed.

(** What [GitHubPRTool.createEnhancementPR] answers. *)
Inductive PRResult : Type :=
  | PRSuccess (prUrl : string) (prNumber : Z) (branch : string)
  | PRError (error : string).

(** What [createGitHubPR] returns: the description of the pull request
    awaiting review, or the failure; the constructor stands for the
    constant fields [status], [agentCollaboration] and
    [sequentialProcessing]. *)
Inductive GithubPR : Type :=
  | PendingReview (url : string) (number : Z) (branch : string)
      (agentCount : Z)
  | PRFailed (error : string).

Module Summary.
(** The summary object.  [generateWorkflowSummary] fills every field
    but the last three; [execute] adds [githubPR]; the team adds
    [skipped]; the team's own summary for a batch with nothing to
    enhance has no [failed] and carries a [message]. *)
Record t : Type := {
  totalFiles : Z;
  successful : Z;
  failed : option Z;
  errors : Z;
  averageRagScore : Z;
  agentCount : Z;
  agentCollaborations : option Z;
  collaborationEffectiveness : option Z;
  totalImprovements : option Z;
  totalProcessingTime : option Z;
  sequentialProcessing : option bool;
  timestamp : option Z;
  githubPR : option GithubPR;
  skipped : option Z;
  message : option string;
}.
End Summary.

(** ** The run logger *)

Inductive Level : Type := INFO | ERROR.

Record LogEntry : Type := {
  timestamp : Z;
  level : Level;
  message : string;
}.

(** What [RunLogger.writeToFile] appends to the log file: a line of text,
    or the closing block written by [finalize], which holds the time, the
    summary it was given (the batch summary, or [{ error }] after a fatal
    error) and the number of entries. *)
Inductive LogLine : Type :=
  | Line (text : string)
  | Closing (completedAt : Z) (summary : Summary.t + string)
      (totalLogEntries : nat).

(** A [RunLogger] object: its fields, what has been appended to its log
    file, and whether [console.log] and [console.error] are currently
    patched to feed it. *)
Record RunLogger : Type := {
  logFile : string;
  logEntries : list LogEntry;
  written : list LogLine;
  capturing : bool;
}.

(** ** The world and the monad of the task *)

Section Orchestration.

(** State of the services the agents talk to. *)
Context {X : Type}.

(** An agent: its descriptor and its behaviour.  [analyzeContent handle
    content] may read and write files and talk to its upstream service;
    it returns the result object or throws. *)
Record Agent : Type := {
  name : string;
  role : string;
  analyzeContent :
    string -> string -> gmap string string -> X ->
    Result AnalysisResult * gmap string string * X;
}.

Record World : Type := {
  cwd : string;                      (* process.cwd () *)
  files : gmap string string;        (* contents of the files on disk *)
  ext : X;                           (* upstream services of the agents *)
  faults : list (option string);     (* fate of the next fs-extra calls *)
  clock : list Z;                    (* next readings of Date.now () *)
  trace : list Event;                (* calls made so far, oldest first *)
  runLogger : option RunLogger;      (* this.runLogger *)
}.

Definition M (A : Type) : Type := World -> Result A * World.

#[export] Instance M_ret : MRet M := fun A a w => (Ok a, w).

#[export] Instance M_bind : MBind M := fun A B f m w =>
  match m w with
  | (Ok a, w') => f a w'
  | (Throw msg, w') => (Throw msg, w')
  end.

Definition throw {A : Type} (msg : string) : M A := fun w => (Throw msg, w).

(** [try { body } catch (error) { handler (error.message) }]; the effects
    of [body] up to the throw are kept. *)
Definition tryCatch {A : Type} (body : M A) (handler : string -> M A) : M A :=
  fun w =>
    match body w with
    | (Ok a, w') => (Ok a, w')
    | (Throw msg, w') => handler msg w'
    end.

Definition getCwd : M string := fun w => (Ok (cwd w), w).

Definition emit (e : Event) : M unit := fun w =>
  (Ok tt,
   {| cwd := cwd w; files := files w; ext := ext w; faults := faults w;
      clock := clock w; trace := trace w ++ [e]; runLogger := runLogger w |}).

(** [Date.now ()] *)
Definition dateNow : M Z := fun w =>
  match clock w with
  | [] => (Ok 0%Z, w)
  | t :: rest =>
      (Ok t,
       {| cwd := cwd w; files := files w; ext := ext w; faults := faults w;
          clock := rest; trace := trace w; runLogger := runLogger w |})
  end.

(** The environment decides whether the next file-system call fails:
    the head of the schedule is consumed, and an exhausted schedule lets
    every call through. *)
Definition pendingFault (schedule : list (option string)) : option string :=
  match schedule with
  | Some msg :: _ => Some msg
  | _ => None
  end.

Definition nextFault : M unit := fun w =>
  let w' :=
    {| cwd := cwd w; files := files w; ext := ext w;
       faults := tail (faults w);
       clock := clock w; trace := trace w; runLogger := runLogger w |} in
  match pendingFault (faults w) with
  | Some msg => (Throw msg, w')
  | None => (Ok tt, w')
  end.

Definition getFiles : M (gmap string string) := fun w => (Ok (files w), w).

Definition setFiles (fs : gmap string string) : M unit := fun w =>
  (Ok tt,
   {| cwd := cwd w; files := fs; ext := ext w; faults := faults w;
      clock := clock w; trace := trace w; runLogger := runLogger w |}).

Definition setRunLogger (l : option RunLogger) : M unit := fun w =>
  (Ok tt,
   {| cwd := cwd w; files := files w; ext := ext w; faults := faults w;
      clock := clock w; trace := trace w; runLogger := l |}).

(** *** fs-extra *)

Definition fsReadFile (p : string) : M string :=
  emit (FsReadFile p);;
  nextFault;;
  fs ← getFiles;
  match fs !! p with
  | Some data => mret data
  | None => throw ("ENOENT: no such file or directory, open " +:+ p)
  end.

Definition fsWriteFile (p data : string) : M unit :=
  emit (FsWriteFile p data);;
  nextFault;;
  fs ← getFiles;
  setFiles (<[p := data]> fs).

(** Directories are not tracked: a successful [ensureDir] changes no
    file. *)
Definition fsEnsureDir (p : string) : M unit :=
  emit (FsEnsureDir p);;
  nextFault.

(** [fs.remove (p)] deletes the file [p] or the whole tree below [p]. *)
Definition fsRemove (p : string) : M unit :=
  emit (FsRemove p);;
  nextFault;;
  fs ← getFiles;
  setFiles (filter (fun kv : string * string => under p kv.1 = false) fs).

(** *** console *)

Definition levelName (l : Level) : string :=
  match l with INFO => "INFO" | ERROR => "ERROR" end.

(** [RunLogger.writeToFile]: a failing append is swallowed by the source
    and only loses the line; the log file is kept apart from [files]. *)
Definition writeToFile (l : RunLogger) (line : LogLine) : RunLogger :=
  {| logFile := logFile l; logEntries := logEntries l;
     written := written l ++ [line]; capturing := capturing l |}.

(** [console.log] and [console.error]: while a run logger captures the
    console, the message is pushed on its entries and appended to its
    file; the terminal itself is not modelled. *)
Definition console (lvl : Level) (msg : string) : M unit := fun w =>
  match runLogger w with
  | Some l =>
      if capturing l then
        (ts ← dateNow;
         let l1 :=
           {| logFile := logFile l;
              logEntries :=
                logEntries l ++
                [{| timestamp := ts; level := lvl; message := msg |}];
              written := written l; capturing := true |} in
         setRunLogger
           (Some (writeToFile l1
                    (Line ("[" +:+ pretty ts +:+ "] " +:+ levelName lvl
                           +:+ ": " +:+ msg))))) w
      else (Ok tt, w)
  | None => (Ok tt, w)
  end.

(** *** Calling an agent *)

Definition runBehaviour (agent : Agent) (handle input : string)
    : M AnalysisResult := fun w =>
  let '(r, fs, x) := analyzeContent agent handle input (files w) (ext w) in
  (r,
   {| cwd := cwd w; files := fs; ext := x; faults := faults w;
      clock := clock w; trace := trace w; runLogger := runLogger w |}).

Definition callAgent (agent : Agent) (handle input : string)
    : M AnalysisResult :=
  emit (Invoke (name agent) handle input);;
  runBehaviour agent handle input.

(** ** The safe execution wrapper *)

Definition tempDirOf (cwd : string) : string :=
  pathJoin cwd ".temp-agent-processing".

Definition tempFilePathOf (cwd agentName : string) (now : Z) : string :=
  pathJoin (tempDirOf cwd)
    ("temp-" +:+ replaceNonAlnum agentName +:+ "-" +:+ pretty now +:+ ".md").

(** Reading the working copy back: the content the wrapper was given
    when the copy cannot be read. *)
Definition readBack (tempFilePath content : string) : M string :=
  tryCatch (fsReadFile tempFilePath) (fun _ => mret content).

(** [try { await fs.remove (p) } catch (e) { }] *)
Definition cleanUp (p : string) : M unit :=
  tryCatch (fsRemove p) (fun _ => mret tt).

(** The [try] block of [runAgentSafely]: the agent works on a copy of the
    content in a temporary file named after it and after the time. *)
Definition runIsolated (agent : Agent) (cwd content : string)
    : M AnalysisResult :=
  fsEnsureDir (tempDirOf cwd);;
  now ← dateNow;
  let tempFilePath := tempFilePathOf cwd (name agent) now in
  fsWriteFile tempFilePath content;;
  result ← callAgent agent tempFilePath content;
  resultContent ← readBack tempFilePath content;
  cleanUp tempFilePath;;
  mret (withContent result resultContent).

(** The [catch] block of [runAgentSafely]: the agent is called with the
    parameters the wrapper received. *)
Definition runFallback (agent : Agent) (filePath content tempDir : string)
    (msg : string) : M AnalysisResult :=
  console ERROR ("Error in safe agent processing: " +:+ msg);;
  cleanUp tempDir;;
  tryCatch
    (result ← callAgent agent filePath content;
     mret (withContent result content))
    (fun fallbackMsg =>
       throw ("Agent " +:+ name agent +:+ " failed: " +:+ fallbackMsg)).

Definition runAgentSafely (agent : Agent) (filePath content : string)
    : M AnalysisResult :=
  cwd ← getCwd;
  tryCatch (runIsolated agent cwd content)
    (runFallback agent filePath content (tempDirOf cwd)).

(** ** The sequential orchestrator *)

(** The locals of [processFileSequentially] that the loop over the agents
    updates, with the statistics object it shares with [execute]. *)
Record LoopState : Type := {
  agentResults : list AgentRun;
  allImprovements : list string;
  contentEvolution : list ContentStage;
  currentContent : string;
  agentStats : gmap string AgentStat.t;
}.

(** [field && field !== currentContent] for an optional string field of
    the result. *)
Definition differs (field : option string) (currentContent : string) : bool :=
  match field with
  | Some c => truthyStr c && negb (String.eqb c currentContent)
  | None => false
  end.

(** [newContent]: the [content] of the result if it is truthy and differs
    from the current content, else its [restructuredContent] under the
    same test, else the current content. *)
Definition newContentOf (res : AnalysisResult) (currentContent : string)
    : string :=
  if differs (content res) currentContent then
    default currentContent (content res)
  else if differs (restructuredContent res) currentContent then
    default currentContent (restructuredContent res)
  else currentContent.

(** The assignments of the [try] block of the loop body once the wrapper
    has returned [res] after [processingTime] milliseconds, in the order
    of the source: statistics, improvements, [newContent], the content
    evolution and [currentContent], and last the pushed entry, whose
    [contentModified] compares [newContent] with the [currentContent]
    just assigned. *)
Definition recordSuccess (i : nat) (agent : Agent) (st : LoopState)
    (res : AnalysisResult) (processingTime : Z) : LoopState :=
  let agentStats :=
    updateAgentStats (agentStats st) (name agent) true processingTime in
  let allImprovements :=
    match improvements res with
    | Some l => allImprovements st ++ l
    | None => allImprovements st
    end in
  let newContent := newContentOf res (currentContent st) in
  let changed := negb (String.eqb newContent (currentContent st)) in
  let contentEvolution :=
    if changed then
      contentEvolution st ++
      [{| stage := name agent; stageContent := newContent;
          stageWordCount := Some (wordCount newContent) |}]
    else contentEvolution st in
  let currentContent :=
    if changed then newContent else currentContent st in
  {| agentResults :=
       agentResults st ++
       [{| agentName := name agent;
           agentRole := role agent;
           result := Some res;
           error := None;
           processingTime := processingTime;
           contentModified := negb (String.eqb newContent currentContent);
           sequencePosition := (Z.of_nat i + 1)%Z |}];
     allImprovements := allImprovements;
     contentEvolution := contentEvolution;
     currentContent := currentContent;
     agentStats := agentStats |}.

(** The assignments of the [catch] block of the loop body. *)
Definition recordFailure (i : nat) (agent : Agent) (st : LoopState)
    (msg : string) : LoopState :=
  {| agentResults :=
       agentResults st ++
       [{| agentName := name agent;
           agentRole := role agent;
           result := None;
           error := Some msg;
           processingTime := 0;
           contentModified := false;
           sequencePosition := (Z.of_nat i + 1)%Z |}];
     allImprovements := allImprovements st;
     contentEvolution := contentEvolution st;
     currentContent := currentContent st;
     agentStats := updateAgentStats (agentStats st) (name agent) false 0 |}.

(** The console output of the [try] block after the wrapper returned. *)
Definition reportSuccess (agent : Agent) (st : LoopState)
    (res : AnalysisResult) (processingTime : Z) : M unit :=
  console INFO
    (name agent +:+ " completed (" +:+ pretty processingTime +:+ "ms)");;
  match improvements res with
  | Some l => console INFO (pretty (length l) +:+ " improvements made")
  | None => mret tt
  end;;
  if differs (content res) (currentContent st) then
    console INFO ("Content modified by " +:+ name agent)
  else if differs (restructuredContent res) (currentContent st) then
    console INFO ("Content restructured by " +:+ name agent)
  else mret tt.

(** The head of the [try] block of the loop body, for the agent at index
    [i] of [total] agents: the announcement and [startTime]. *)
Definition startAgent (total i : nat) (agent : Agent) : M Z :=
  console INFO
    ("Running " +:+ name agent +:+ " (" +:+ pretty (i + 1)%nat +:+ "/"
     +:+ pretty total +:+ ")...");;
  dateNow.

(** The [try] block of the loop body. *)
Definition runAgentStep (total i : nat) (fullPath : string) (agent : Agent)
    (st : LoopState) : M LoopState :=
  startTime ← startAgent total i agent;
  res ← runAgentSafely agent fullPath (currentContent st);
  endTime ← dateNow;
  let processingTime := (endTime - startTime)%Z in
  reportSuccess agent st res processingTime;;
  mret (recordSuccess i agent st res processingTime).

(** The [catch] block of the loop body. *)
Definition runAgentCatch (i : nat) (agent : Agent) (st : LoopState)
    (msg : string) : M LoopState :=
  console ERROR (name agent +:+ " failed: " +:+ msg);;
  mret (recordFailure i agent st msg).

(** One iteration of the loop.  The only call of the [try] block that can
    throw is [runAgentSafely], and the locals are assigned after it, so
    the handler finds them as they were when the iteration started. *)
Definition runAgent (total i : nat) (fullPath : string) (agent : Agent)
    (st : LoopState) : M LoopState :=
  tryCatch (runAgentStep total i fullPath agent st)
    (runAgentCatch i agent st).

(** [for (let i = 0; i < this.agents.length; i++)], from index [i] on. *)
Fixpoint runAgents (total i : nat) (fullPath : string) (agents : list Agent)
    (st : LoopState) : M LoopState :=
  match agents with
  | [] => mret st
  | agent :: rest =>
      st' ← runAgent total i fullPath agent st;
      runAgents total (S i) fullPath rest st'
  end.

(** [processFileSequentially (fileInfo, agentStats)] of a task whose
    agents are [agents]; [stats] is the statistics object on entry.  The
    source updates that object in place; here the updated object is
    returned with the record. *)
Definition processFileSequentially (agents : list Agent)
    (fileInfo : FileInfo) (stats : gmap string AgentStat.t)
    : M (Enhancement.t * gmap string AgentStat.t) :=
  cwd ← getCwd;
  let fullPath := pathJoin cwd (path fileInfo) in
  originalContent ← fsReadFile fullPath;
  let originalWordCount := wordCount originalContent in
  console INFO ("Original content: " +:+ pretty originalWordCount +:+ " words");;
  st ←
    runAgents (length agents) 0 fullPath agents
      {| agentResults := [];
         allImprovements := [];
         contentEvolution :=
           [{| stage := "original"; stageContent := originalContent;
               stageWordCount := None |}];
         currentContent := originalContent;
         agentStats := stats |};
  let finalContent := currentContent st in
  let finalWordCount := wordCount finalContent in
  let totalProcessingTime :=
    foldl (fun sum r => (sum + processingTime r)%Z) 0%Z (agentResults st) in
  let ragScore := calculateConsolidatedRAGScore (agentResults st) in
  let addedFields := extractAddedFields (agentResults st) in
  console INFO
    ("Content evolution: " +:+ pretty originalWordCount +:+ " -> "
     +:+ pretty finalWordCount +:+ " words");;
  console INFO ("Consolidated RAG score: " +:+ pretty ragScore +:+ "/100");;
  console INFO "Original file unchanged (changes only in PR)";;
  mret
    ({| Enhancement.filePath := fullPath;
        Enhancement.relativePath := path fileInfo;
        Enhancement.originalContent := originalContent;
        Enhancement.finalContent := finalContent;
        Enhancement.contentEvolution := contentEvolution st;
        Enhancement.agentResults := agentResults st;
        Enhancement.improvements := allImprovements st;
        Enhancement.ragScore := ragScore;
        Enhancement.addedFields := addedFields;
        Enhancement.totalProcessingTime := totalProcessingTime;
        Enhancement.sequentialProcessing := true |},
     agentStats st).

(** ** The run logger's methods *)

Definition getRunLogger : M (option RunLogger) := fun w => (Ok (runLogger w), w).

(** [this.runLogger = new RunLogger ()]: the constructor names the log
    file after the time, patches the console and announces itself through
    the patched console. *)
Definition newRunLogger : M unit :=
  now ← dateNow;
  let logFile := "./logs/runs/run-" +:+ pretty now +:+ ".log" in
  setRunLogger
    (Some {| logFile := logFile; logEntries := []; written := [];
             capturing := true |});;
  console INFO ("[Run Logger] Capturing console output to: " +:+ logFile).

(** [logError (error)]; the stack of the error is not modelled. *)
Definition logError (l : RunLogger) (msg : string) : M unit :=
  ts ← dateNow;
  setRunLogger
    (Some (writeToFile l
             (Line ("[" +:+ pretty ts +:+ "] FATAL: FATAL ERROR: " +:+ msg)))).

(** [finalize (summary)]: append the closing block and restore the
    console. *)
Definition finalize (l : RunLogger) (summary : Summary.t + string) : M unit :=
  ts ← dateNow;
  let l1 := writeToFile l (Closing ts summary (length (logEntries l))) in
  setRunLogger
    (Some {| logFile := logFile l1; logEntries := logEntries l1;
             written := written l1; capturing := false |}).

(** ** The batch: [EnhanceMetadataTask.execute] *)

(** The pull-request tool is a collaborator: it talks to the hosting
    service and answers, or throws. *)
Context (createEnhancementPR :
           list Proposed.t -> Summary.t -> X -> Result PRResult * X).

Definition callPRTool (proposed : list Proposed.t) (summary : Summary.t)
    : M PRResult := fun w =>
  let '(r, x) := createEnhancementPR proposed summary (ext w) in
  (r,
   {| cwd := cwd w; files := files w; ext := x; faults := faults w;
      clock := clock w; trace := trace w; runLogger := runLogger w |}).

Definition initializeAgentStats (agents : list Agent)
    : gmap string AgentStat.t :=
  foldl (fun stats agent => <[name agent := AgentStat.zero]> stats) ∅ agents.

Definition generateWorkflowSummary (agents : list Agent)
    (enhancements : list Enhancement.t) (errors : list DocError.t)
    (agentStats : gmap string AgentStat.t) : M Summary.t :=
  let successful := Z.of_nat (length enhancements) in
  let failed := Z.of_nat (length errors) in
  let total := (successful + failed)%Z in
  let ragScores :=
    List.filter (fun score => truthyNum score && (0 <? score)%Z)
      (map Enhancement.ragScore enhancements) in
  let averageRagScore :=
    if (0 <? Z.of_nat (length ragScores))%Z
    then roundDiv (sumZ ragScores) (Z.of_nat (length ragScores))
    else 0%Z in
  let totalImprovements :=
    foldl (fun sum e => (sum + Z.of_nat (length (Enhancement.improvements e)))%Z)
      0%Z enhancements in
  let totalProcessingTime :=
    foldl (fun sum e => (sum + Enhancement.totalProcessingTime e)%Z)
      0%Z enhancements in
  let agentCollaborations := (successful * Z.of_nat (length agents))%Z in
  console INFO "Multi-Agent Enhancement Summary:";;
  console INFO ("Files processed: " +:+ pretty successful);;
  console INFO ("Successful enhancements: " +:+ pretty successful);;
  console INFO ("Agent collaborations: " +:+ pretty agentCollaborations);;
  console INFO ("Average RAG score: " +:+ pretty averageRagScore);;
  console INFO ("Total improvements: " +:+ pretty totalImprovements);;
  console INFO
    ("Total processing time: " +:+ pretty (roundDiv totalProcessingTime 1000)
     +:+ "s");;
  now ← dateNow;
  mret
    {| Summary.totalFiles := total;
       Summary.successful := successful;
       Summary.failed := Some failed;
       Summary.errors := failed;
       Summary.averageRagScore := averageRagScore;
       Summary.agentCount := Z.of_nat (length agents);
       Summary.agentCollaborations := Some agentCollaborations;
       Summary.collaborationEffectiveness :=
         Some (if (0 <? successful)%Z then 100 else 0)%Z;
       Summary.totalImprovements := Some totalImprovements;
       Summary.totalProcessingTime := Some totalProcessingTime;
       Summary.sequentialProcessing := Some true;
       Summary.timestamp := Some now;
       Summary.githubPR := None;
       Summary.skipped := None;
       Summary.message := None |}.

Definition createGitHubPR (agents : list Agent)
    (enhancements : list Enhancement.t) (summary : Summary.t) : M GithubPR :=
  tryCatch
    (let proposedEnhancements :=
       map (fun enhancement =>
              {| Proposed.filePath := Enhancement.filePath enhancement;
                 Proposed.relativePath := Enhancement.relativePath enhancement;
                 Proposed.enhancedContent := Enhancement.finalContent enhancement;
                 Proposed.originalContent :=
                   Enhancement.originalContent enhancement;
                 Proposed.improvements := Enhancement.improvements enhancement;
                 Proposed.ragScore := Enhancement.ragScore enhancement |})
         enhancements in
     prResult ← callPRTool proposedEnhancements summary;
     match prResult with
     | PRSuccess prUrl prNumber branch =>
         console INFO ("[Multi-Agent Task] PR created: " +:+ prUrl);;
         console INFO "[Next Steps] Review and approve PR to apply changes";;
         mret (PendingReview prUrl prNumber branch (Z.of_nat (length agents)))
     | PRError error =>
         console ERROR ("[Multi-Agent Task] PR creation failed: " +:+ error);;
         mret (PRFailed error)
     end)
    (fun msg =>
       console ERROR ("Failed to create GitHub PR: " +:+ msg);;
       mret (PRFailed msg)).

(** The [processedFiles] of the context: an array of documents, or any
    other value, of which only the [typeof] shows. *)
Inductive ProcessedFiles : Type :=
  | NotAnArray (typeofName : string)
  | FilesArray (documents : list FileInfo).

(** What [execute] returns: [{ success: true, ... }] or
    [{ success: false, error, timestamp }]. *)
Inductive TaskResult : Type :=
  | TaskSuccess (summary : Summary.t) (enhancements : list Enhancement.t)
      (errors : list DocError.t)
      (agentStatistics : option (gmap string AgentStat.t))
  | TaskFailure (error : string) (timestamp : Z).

(** The accumulators of the loop of [execute] over the documents. *)
Record BatchState : Type := {
  enhancements : list Enhancement.t;
  errors : list DocError.t;
  batchStats : gmap string AgentStat.t;
}.

(** One iteration of [for (const fileInfo of processedFiles)].  When
    [processFileSequentially] throws it has not touched the statistics
    yet (it throws on its first read only). *)
Definition processFile (agents : list Agent) (fileInfo : FileInfo)
    (b : BatchState) : M BatchState :=
  tryCatch
    (console INFO ("Processing: " +:+ title fileInfo);;
     '(fileEnhancement, stats) ←
       processFileSequentially agents fileInfo (batchStats b);
     console INFO ("Multi-agent analysis complete for: " +:+ title fileInfo);;
     console INFO
       ("Total improvements: "
        +:+ pretty (length (Enhancement.improvements fileEnhancement)));;
     console INFO
       ("Final RAG score: " +:+ pretty (Enhancement.ragScore fileEnhancement)
        +:+ "/100");;
     console INFO
       ("Processing time: "
        +:+ pretty (Enhancement.totalProcessingTime fileEnhancement) +:+ "ms");;
     mret {| enhancements := enhancements b ++ [fileEnhancement];
             errors := errors b;
             batchStats := stats |})
    (fun msg =>
       console ERROR ("Error processing " +:+ title fileInfo +:+ ": " +:+ msg);;
       mret {| enhancements := enhancements b;
               errors :=
                 errors b ++
                 [{| DocError.file := title fileInfo; DocError.error := msg |}];
               batchStats := batchStats b |}).

Fixpoint processFiles (agents : list Agent) (documents : list FileInfo)
    (b : BatchState) : M BatchState :=
  match documents with
  | [] => mret b
  | fileInfo :: rest =>
      b' ← processFile agents fileInfo b;
      processFiles agents rest b'
  end.

(** [agents.forEach ((agent, index) => console.log (...))], from [index]. *)
Fixpoint announceAgents (index : nat) (agents : list Agent) : M unit :=
  match agents with
  | [] => mret tt
  | agent :: rest =>
      console INFO
        (pretty (index + 1)%nat +:+ ". " +:+ name agent +:+ " ("
         +:+ role agent +:+ ")");;
      announceAgents (S index) rest
  end.

(** The input checks at the head of the [try] block of [execute]. *)
Definition validateInputs (agents : list Agent)
    (processedFiles : ProcessedFiles) : M (list FileInfo) :=
  documents ←
    match processedFiles with
    | NotAnArray typeofName =>
        throw ("Invalid processedFiles: " +:+ typeofName)
    | FilesArray [] => throw "Invalid processedFiles: object"
    | FilesArray documents => mret documents
    end;
  match agents with
  | [] => throw "No agents available for processing"
  | _ => mret documents
  end.

(** The [try] block of [execute]. *)
Definition executeBody (agents : list Agent) (processedFiles : ProcessedFiles)
    : M TaskResult :=
  newRunLogger;;
  documents ← validateInputs agents processedFiles;
  console INFO
    ("[Multi-Agent Task] Processing with " +:+ pretty (length agents)
     +:+ " agents in sequence");;
  announceAgents 0 agents;;
  b ←
    processFiles agents documents
      {| enhancements := []; errors := [];
         batchStats := initializeAgentStats agents |};
  summary ←
    generateWorkflowSummary agents (enhancements b) (errors b) (batchStats b);
  console INFO "[Multi-Agent Task] Creating GitHub PR with all enhancements...";;
  prResult ← createGitHubPR agents (enhancements b) summary;
  l ← getRunLogger;
  match l with
  | Some l => finalize l (inl summary)
  | None => throw "Cannot read properties of null (reading 'finalize')"
  end;;
  let summary :=
    {| Summary.totalFiles := Summary.totalFiles summary;
       Summary.successful := Summary.successful summary;
       Summary.failed := Summary.failed summary;
       Summary.errors := Summary.errors summary;
       Summary.averageRagScore := Summary.averageRagScore summary;
       Summary.agentCount := Summary.agentCount summary;
       Summary.agentCollaborations := Summary.agentCollaborations summary;
       Summary.collaborationEffectiveness :=
         Summary.collaborationEffectiveness summary;
       Summary.totalImprovements := Summary.totalImprovements summary;
       Summary.totalProcessingTime := Summary.totalProcessingTime summary;
       Summary.sequentialProcessing := Summary.sequentialProcessing summary;
       Summary.timestamp := Summary.timestamp summary;
       Summary.githubPR := Some prResult;
       Summary.skipped := Summary.skipped summary;
       Summary.message := Summary.message summary |} in
  mret (TaskSuccess summary (enhancements b) (errors b) (Some (batchStats b))).

(** The [catch] block of [execute]. *)
Definition executeFatal (msg : string) : M TaskResult :=
  console ERROR ("[Multi-Agent Task] Fatal error: " +:+ msg);;
  l ← getRunLogger;
  match l with
  | Some l =>
      logError l msg;;
      l ← getRunLogger;
      match l with
      | Some l => finalize l (inr msg)
      | None => mret tt
      end
  | None => mret tt
  end;;
  now ← dateNow;
  mret (TaskFailure msg now).

(** [execute (context)] of a task whose agents are [agents]. *)
Definition execute (agents : list Agent) (processedFiles : ProcessedFiles)
    : M TaskResult :=
  console INFO "[Multi-Agent Task] Starting sequential agent workflow...";;
  tryCatch (executeBody agents processedFiles) executeFatal.

(** ** The team: [DocumentProcessingTeam]

    The console output of the team is left out: it is printed before
    [execute] creates the run logger or after [execute] has finalised
    it, so it reaches the terminal only. *)

(** An [EnhanceMetadataTask] object, as far as the team configures it. *)
Record Task : Type := {
  taskAgents : list Agent;
}.

Record Team : Type := {
  agents : list Agent;
  tasks : list Task;
}.

Definition maxAgents : nat := 6.

(** [addAgent (agent)]: refused once the team is full. *)
Definition addAgent (team : Team) (agent : Agent) : Team :=
  if (maxAgents <=? length (agents team))%nat then team
  else {| agents := agents team ++ [agent]; tasks := tasks team |}.

Definition mockAgent : Agent :=
  {| name := "mock-agent";
     role := "Mock Enhancement Agent";
     analyzeContent := fun _ _ fs x =>
       (Ok {| improvements := Some ["Basic mock enhancement"];
              content := None;
              restructuredContent := None;
              enhancedMetadata :=
                Some {| ragScore := Some 70%Z; chunkingScore := None;
                        validationScore := None; seoScore := None;
                        otherKeys := [] |} |},
        fs, x) |}.

(** The agent modules that load, in the order of [agentConfigs]; a module
    that fails to load is skipped, none of them being required. *)
Context (loadableAgents : list Agent).

Definition loadAllAgents : list Agent :=
  match loadableAgents with
  | [] => [mockAgent]
  | _ => loadableAgents
  end.

(** [initialize ()] *)
Definition initialize (team : Team) : Team :=
  let team := {| agents := []; tasks := [] |} in
  let team := foldl addAgent team loadAllAgents in
  let enhanceTask := {| taskAgents := agents team |} in
  {| agents := agents team; tasks := tasks team ++ [enhanceTask] |}.

(** [processDocuments (processedFiles)]; the team object may be
    initialised on the way and is returned with the result. *)
Definition processDocuments (team : Team) (processedFiles : list FileInfo)
    : M (TaskResult * Team) :=
  tryCatch
    (let filesToEnhance := List.filter needsEnhancement processedFiles in
     let skippedFiles :=
       List.filter (fun file => negb (needsEnhancement file)) processedFiles in
     match filesToEnhance with
     | [] =>
         mret
           (TaskSuccess
              {| Summary.totalFiles := Z.of_nat (length processedFiles);
                 Summary.successful := 0;
                 Summary.failed := None;
                 Summary.errors := 0;
                 Summary.averageRagScore := 0;
                 Summary.agentCount := Z.of_nat (length (agents team));
                 Summary.agentCollaborations := None;
                 Summary.collaborationEffectiveness := None;
                 Summary.totalImprovements := None;
                 Summary.totalProcessingTime := None;
                 Summary.sequentialProcessing := None;
                 Summary.timestamp := None;
                 Summary.githubPR := None;
                 Summary.skipped := Some (Z.of_nat (length skippedFiles));
                 Summary.message :=
                   Some "All files already enhanced within 24 hours" |}
              [] [] None,
            team)
     | _ =>
         let team :=
           match agents team, tasks team with
           | _ :: _, _ :: _ => team
           | _, _ => initialize team
           end in
         match tasks team with
         | [] => throw "Cannot read properties of undefined (reading 'execute')"
         | enhanceTask :: _ =>
             res ← execute (taskAgents enhanceTask) (FilesArray filesToEnhance);
             match res with
             | TaskSuccess summary enhancements errors agentStatistics =>
                 let summary :=
                   {| Summary.totalFiles := Z.of_nat (length processedFiles);
                      Summary.successful := Summary.successful summary;
                      Summary.failed := Summary.failed summary;
                      Summary.errors := Summary.errors summary;
                      Summary.averageRagScore :=
                        Summary.averageRagScore summary;
                      Summary.agentCount := Z.of_nat (length (agents team));
                      Summary.agentCollaborations :=
                        Summary.agentCollaborations summary;
                      Summary.collaborationEffectiveness :=
                        Summary.collaborationEffectiveness summary;
                      Summary.totalImprovements :=
                        Summary.totalImprovements summary;
                      Summary.totalProcessingTime :=
                        Summary.totalProcessingTime summary;
                      Summary.sequentialProcessing :=
                        Summary.sequentialProcessing summary;
                      Summary.timestamp := Summary.timestamp summary;
                      Summary.githubPR := Summary.githubPR summary;
                      Summary.skipped :=
                        Some (Z.of_nat (length skippedFiles));
                      Summary.message := Summary.message summary |} in
                 mret
                   (TaskSuccess summary enhancements errors agentStatistics,
                    team)
             | TaskFailure error timestamp =>
                 mret (TaskFailure error timestamp, team)
             end
         end
     end)
    (fun msg =>
       now ← dateNow;
       mret (TaskFailure msg now, team)).

End Orchestration.

(** * Specification-side notions *)

Section Notions.
Context {X : Type}.

(** [w'] differs from [w] at most by clock readings consumed and by what
    the run logger captured. *)
Definition quiet (w w' : @World X) : Prop :=
  cwd w' = cwd w ∧ files w' = files w ∧ ext w' = ext w ∧
  faults w' = faults w ∧ trace w' = trace w.

(** Every invocation recorded in [seg] is an invocation of [agent] on
    [input]. *)
Definition invokesOnly (seg : list Event) (agent : @Agent X)
    (input : string) : Prop :=
  ∀ n h i, Invoke n h i ∈ seg → n = name agent ∧ i = input.

(** Every file-system call recorded in [seg] addresses [dir] or a
    path below it. *)
Definition confined (dir : string) (seg : list Event) : Prop :=
  ∀ ev, ev ∈ seg →
    match ev with
    | FsEnsureDir p | FsWriteFile p _ | FsReadFile p | FsRemove p =>
        under dir p = true
    | Invoke _ _ _ => True
    end.

(** [seg] records at least one invocation, and all its invocations are
    invocations of [agent] on [input]. *)
Definition invokedWith (agent : @Agent X) (seg : list Event)
    (input : string) : Prop :=
  invokesOnly seg agent input ∧ ∃ h, Invoke (name agent) h input ∈ seg.

(** The agent, run on the files [fs] and the services [x] with a working
    copy holding [input] in the temporary directory, left that copy
    holding [output]. *)
Definition alteredCopy (agent : @Agent X) (cwd : string)
    (fs : gmap string string) (x : X) (input output : string) : Prop :=
  ∃ now,
    let h := tempFilePathOf cwd (name agent) now in
    (analyzeContent agent h input (<[h := input]> fs) x).1.2 !! h
    = Some output.

(** The entry pushed when the invocation of the agent at index [i] threw
    [msg]. *)
Definition failedEntry (i : nat) (agent : @Agent X) (msg : string) : AgentRun :=
  {| agentName := name agent; agentRole := role agent; result := None;
     error := Some msg; processingTime := 0; contentModified := false;
     sequencePosition := (Z.of_nat i + 1)%Z |}.

(** The entry pushed for the agent at index [i], whichever way its
    invocation ended. *)
Definition entryOf (i : nat) (agent : @Agent X) (r : AgentRun) : Prop :=
  agentName r = name agent ∧ agentRole r = role agent ∧
  sequencePosition r = (Z.of_nat i + 1)%Z ∧
  ((is_Some (result r) ∧ error r = None) ∨
   (result r = None ∧ is_Some (error r) ∧ processingTime r = 0%Z)).

(** The next file-system call is let through and [p] exists. *)
Definition readable (w : @World X) (p : string) : Prop :=
  pendingFault (faults w) = None ∧ is_Some (files w !! p).

End Notions.

(** The first entry of every content evolution. *)
Definition originalStage (original : string) : ContentStage :=
  {| stage := "original"; stageContent := original; stageWordCount := None |}.

(** The content the orchestrator holds after the entry [r], when it held
    [cur] before. *)
Definition contentAfter (cur : string) (r : AgentRun) : string :=
  match result r with
  | Some res => newContentOf res cur
  | None => cur
  end.

(** The snapshots appended for the entries [rs], starting from the
    content [cur]. *)
Fixpoint snapshots (cur : string) (rs : list AgentRun) : list ContentStage :=
  match rs with
  | [] => []
  | r :: rs' =>
      let c := contentAfter cur r in
      (if String.eqb c cur then []
       else [{| stage := agentName r; stageContent := c;
                stageWordCount := Some (wordCount c) |}])
      ++ snapshots c rs'
  end.

(** The content each agent is to receive, starting from [cur]. *)
Fixpoint inputs (cur : string) (rs : list AgentRun) : list string :=
  match rs with
  | [] => []
  | r :: rs' => cur :: inputs (contentAfter cur r) rs'
  end.

(** The message with which the input checks of [execute] reject a
    batch: a document list that is not a list or is empty is reported
    first, an empty agent list otherwise. *)
Definition rejection (pf : ProcessedFiles) : string :=
  match pf with
  | NotAnArray typeofName => "Invalid processedFiles: " +:+ typeofName
  | FilesArray [] => "Invalid processedFiles: object"
  | FilesArray _ => "No agents available for processing"
  end.

(** ** The consolidated score, in the words of the specification *)

Definition scoreFields (m : Metadata) : list (option Z) :=
  [ragScore m; chunkingScore m; validationScore m; seoScore m].

(** The score of a metadata object as first worded: its first present
    field in the preference order, 75 when none is present. *)
Definition firstPresentScore (m : Metadata) : Z :=
  default 75%Z (head (omap id (scoreFields m))).

(** The consolidated score as first worded: the rounded average, over the
    successful results, of their scores. *)
Definition claimedConsolidatedScore (rs : list AgentRun) : Z :=
  let scores :=
    omap (fun r =>
            match result r with
            | Some res =>
                Some (match enhancedMetadata res with
                      | Some m => firstPresentScore m
                      | None => 75%Z
                      end)
            | None => None
            end) rs in
  match scores with
  | [] => 75%Z
  | _ => roundDiv (sumZ scores) (Z.of_nat (length scores))
  end.

(** The score of a metadata object as amended: its first present field
    that is not zero, 75 when there is none. *)
Definition firstNonZeroScore (m : Metadata) : Z :=
  default 75%Z (head (filter (fun z => z ≠ 0%Z) (omap id (scoreFields m)))).

(** The scores collected as amended: the positive scores of the
    successful results that carry a metadata object. *)
Definition collectedScores (rs : list AgentRun) : list Z :=
  filter (fun z => (0 < z)%Z)
    (map firstNonZeroScore
       (omap (fun r =>
                match result r with
                | Some res => enhancedMetadata res
                | None => None
                end) rs)).

(** No score field of any result of [rs] is present. *)
Definition noScoreReported (rs : list AgentRun) : Prop :=
  ∀ r res m, r ∈ rs → result r = Some res → enhancedMetadata res = Some m →
    scoreFields m = [None; None; None; None].

(** ** The consolidated content evolution, in the words of the specification *)

(** The stages appended as first worded: one per successful entry whose
    returned [content] differs from the content received, the content
    received being the original content or the content returned by the
    last such entry. *)
Fixpoint claimedStages (received : string) (rs : list AgentRun) : list string :=
  match rs with
  | [] => []
  | r :: rs' =>
      match result r with
      | Some {| content := Some returned |} =>
          if String.eqb returned received then claimedStages received rs'
          else agentName r :: claimedStages returned rs'
      | _ => claimedStages received rs'
      end
  end.

(** * Concrete runs *)

(** A site with one document, no scheduled fault, a stopped clock and no
    run logger yet. *)
Definition exWorld : @World unit :=
  {| cwd := "/site";
     files := {[ "/site/docs/setup.md" := "hello world" ]};
     ext := tt; faults := []; clock := []; trace := []; runLogger := None |}.

(** The same site when the next file-system call is refused. *)
Definition exWorldRefusing : @World unit :=
  {| cwd := "/site";
     files := {[ "/site/docs/setup.md" := "hello world" ]};
     ext := tt; faults := [Some "EACCES: permission denied"];
     clock := []; trace := []; runLogger := None |}.

(** The same site when the call after the next one is refused: the
    document can be read, the temporary directory cannot be created. *)
Definition exWorldRefusingSetup : @World unit :=
  {| cwd := "/site";
     files := {[ "/site/docs/setup.md" := "hello world" ]};
     ext := tt; faults := [None; Some "EACCES: permission denied"];
     clock := []; trace := []; runLogger := None |}.

Definition exDoc : FileInfo :=
  {| path := "docs/setup.md"; title := "Setup"; needsEnhancement := true |}.

Definition exFresh : FileInfo :=
  {| path := "docs/intro.md"; title := "Intro"; needsEnhancement := false |}.

Definition exMetadata (score : option Z) : Metadata :=
  {| ragScore := score; chunkingScore := None; validationScore := None;
     seoScore := None; otherKeys := ["keywords"] |}.

(** An agent that reports a quality score and leaves every file alone. *)
Definition exScorer (n : string) (score : Z) : @Agent unit :=
  {| name := n; role := "Scorer";
     analyzeContent := fun _ _ fs x =>
       (Ok {| improvements := Some ["Scored the document"];
              content := None; restructuredContent := None;
              enhancedMetadata := Some (exMetadata (Some score)) |},
        fs, x) |}.

(** An agent that overwrites the file it is handed with [output], as the
    chunking optimizer of the repository does. *)
Definition exRewriter (n output : string) : @Agent unit :=
  {| name := n; role := "Rewriter";
     analyzeContent := fun handle _ fs x =>
       (Ok {| improvements := Some ["Restructured the document"];
              content := None; restructuredContent := None;
              enhancedMetadata := None |},
        <[handle := output]> fs, x) |}.

(** An agent that throws. *)
Definition exThrower (n msg : string) : @Agent unit :=
  {| name := n; role := "Thrower";
     analyzeContent := fun _ _ fs x => (Throw msg, fs, x) |}.

(** An agent that overwrites the file it is handed and then throws. *)
Definition exRewriteThenThrow (n output msg : string) : @Agent unit :=
  {| name := n; role := "Rewriter";
     analyzeContent := fun handle _ fs x =>
       (Throw msg, <[handle := output]> fs, x) |}.

(** Agents [A], [B], [C] of which only [B] changes the content. *)
Definition exOnlyBChanges : list (@Agent unit) :=
  [exScorer "A" 80; exRewriter "B" "hello brave world"; exScorer "C" 60].

(** Agents [A], [B], [C] of which [B] throws. *)
Definition exBThrows : list (@Agent unit) :=
  [exScorer "A" 80; exThrower "B" "upstream unavailable"; exScorer "C" 60].

(** The loop state when the turn of the second agent comes. *)
Definition exState : LoopState :=
  {| agentResults := []; allImprovements := [];
     contentEvolution := [originalStage "hello world"];
     currentContent := "hello world"; agentStats := ∅ |}.

Definition exBatch : BatchState :=
  {| enhancements := []; errors := []; batchStats := ∅ |}.

(** A successful entry whose result carries the given metadata. *)
Definition exEntry (n : string) (m : Metadata) : AgentRun :=
  {| agentName := n; agentRole := "Scorer";
     result := Some {| improvements := None; content := Some "hello world";
                       restructuredContent := None;
                       enhancedMetadata := Some m |};
     error := None; processingTime := 0; contentModified := false;
     sequencePosition := 1 |}.

(** A result whose quality score is zero and whose keyword score is 40. *)
Definition exZeroQuality : list AgentRun :=
  [exEntry "A"
     {| ragScore := Some 0%Z; chunkingScore := None; validationScore := None;
        seoScore := Some 40%Z; otherKeys := [] |}].

(** Two results reporting 80 and 60. *)
Definition exEightySixty : list AgentRun :=
  [exEntry "A" (exMetadata (Some 80%Z)); exEntry "B" (exMetadata (Some 60%Z))].

(** A pull-request tool that always succeeds. *)
Definition exPRTool (_ : list Proposed.t) (_ : Summary.t) (x : unit)
    : Result PRResult * unit :=
  (Ok (PRSuccess "https://example.org/pull/1" 1 "rag-enhancements-0"), x).

Definition exTeam : @Team unit := {| agents := []; tasks := [] |}.

(** * Further notions *)

(** Whether the entry [r] records a returned invocation. *)
Definition succeeded (r : AgentRun) : bool :=
  match result r with Some _ => true | None => false end.

(** The statistics once the entry [r] has been counted. *)
Definition statsAfter (stats : gmap string AgentStat.t) (r : AgentRun)
    : gmap string AgentStat.t :=
  updateAgentStats stats (agentName r) (succeeded r) (processingTime r).

(** The improvements the entry [r] contributes. *)
Definition improvementsOf (r : AgentRun) : list string :=
  match result r with
  | Some res => default [] (improvements res)
  | None => []
  end.





(** The entry [r] holds a result whose metadata has the key [f]. *)
Definition reportsField (f : string) (r : AgentRun) : Prop :=
  ∃ res metadata,
    result r = Some res ∧ enhancedMetadata res = Some metadata ∧
    f ∈ metadataKeys metadata.


(** ** What a computation leaves alone, and what the run logger holds *)

Section Conduct.
Context {X : Type}.

(** Every run of [m] relates the world it starts in to the world it ends
    in by [R], whether it returns or throws. *)
Definition frames {A : Type} (R : @World X → @World X → Prop) (m : M A)
    : Prop :=
  ∀ w r w', m w = (r, w') → R w w'.

(** [m] returns, whatever the world it starts in. *)
Definition returns {A : Type} (m : @M X A) : Prop :=
  ∀ w, ∃ a w', m w = (Ok a, w').

(** The line that the patched console appends to the log file for an
    entry. *)
Definition lineOf (e : LogEntry) : LogLine :=
  Line ("[" +:+ pretty (timestamp e) +:+ "] " +:+ levelName (level e)
        +:+ ": " +:+ message e).

(** [l'] is [l] after some console output: the same file, the console
    patched or not as before, and as many new lines as new entries. *)
Definition extends (l l' : RunLogger) : Prop :=
  logFile l' = logFile l ∧ capturing l' = capturing l ∧
  ∃ es, logEntries l' = logEntries l ++ es ∧
        written l' = written l ++ map lineOf es.

Definition logs (w w' : @World X) : Prop :=
  match runLogger w with
  | Some l => ∃ l', runLogger w' = Some l' ∧ extends l l'
  | None => runLogger w' = None
  end.

(** [e] is the record of a document processed by a task whose agents are
    [agents]. *)
Definition produced (agents : list (@Agent X)) (e : Enhancement.t) : Prop :=
  ∃ fileInfo stats w s w',
    processFileSequentially agents fileInfo stats w = (Ok (e, s), w').

End Conduct.

(** ** What a batch yields *)

Section Outcomes.
Context {X : Type}.

(** What one document of a batch yields: its record, or an error. *)
Definition Outcome : Type := (Enhancement.t + DocError.t)%type.

Definition enhancementsOf (outcomes : list Outcome) : list Enhancement.t :=
  omap (fun o => match o with inl e => Some e | inr _ => None end) outcomes.

Definition errorsOf (outcomes : list Outcome) : list DocError.t :=
  omap (fun o => match o with inl _ => None | inr err => Some err end) outcomes.

(** The outcome [o] is that of the document [d] in a task whose agents
    are [agents]. *)
Definition outcomeOf (agents : list (@Agent X)) (d : FileInfo) (o : Outcome)
    : Prop :=
  match o with
  | inl e =>
      Enhancement.relativePath e = path d ∧
      ∃ stats w s w',
        processFileSequentially agents d stats w = (Ok (e, s), w')
  | inr err =>
      DocError.file err = title d ∧
      ∃ stats (w w' : @World X),
        processFileSequentially agents d stats w
        = (Throw (DocError.error err), w')
  end.

(** [{ ...summary, githubPR: prResult }] *)
Definition withGithubPR (summary : Summary.t) (prResult : GithubPR)
    : Summary.t :=
  {| Summary.totalFiles := Summary.totalFiles summary;
     Summary.successful := Summary.successful summary;
     Summary.failed := Summary.failed summary;
     Summary.errors := Summary.errors summary;
     Summary.averageRagScore := Summary.averageRagScore summary;
     Summary.agentCount := Summary.agentCount summary;
     Summary.agentCollaborations := Summary.agentCollaborations summary;
     Summary.collaborationEffectiveness :=
       Summary.collaborationEffectiveness summary;
     Summary.totalImprovements := Summary.totalImprovements summary;
     Summary.totalProcessingTime := Summary.totalProcessingTime summary;
     Summary.sequentialProcessing := Summary.sequentialProcessing summary;
     Summary.timestamp := Summary.timestamp summary;
     Summary.githubPR := Some prResult;
     Summary.skipped := Summary.skipped summary;
     Summary.message := Summary.message summary |}.

(** The log file of a finished run: one line for each entry, then [tail]. *)
Definition closedWith (l : RunLogger) (tail : list LogLine) : Prop :=
  capturing l = false ∧ logEntries l ≠ [] ∧
  written l = map lineOf (logEntries l) ++ tail.

(** The run logger of [w] is capturing the console and its file holds
    one line for each of its entries. *)
Definition logging (w : @World X) : Prop :=
  ∃ l, runLogger w = Some l ∧ capturing l = true ∧ logEntries l ≠ [] ∧
       written l = map lineOf (logEntries l).



End Outcomes.

(** ** More of the team: [DocumentProcessingTeam] *)

Section TeamOps.
Context {X : Type}.

(** What [addAgent (agent)] returns: whether the agent was added. *)
Definition addAgentAccepts (team : @Team X) : bool :=
  negb (maxAgents <=? length (agents team))%nat.

(** [addAgents (agents)]: the team after the calls of [addAgent], and the
    names of the agents that were added. *)
Definition addAgents (team : @Team X) (newAgents : list Agent)
    : Team * list string :=
  foldl
    (fun (acc : Team * list string) agent =>
       (addAgent acc.1 agent,
        if addAgentAccepts acc.1 then acc.2 ++ [name agent] else acc.2))
    (team, []) newAgents.

(** [agents.findIndex (agent => agent.name === agentName)] *)
Fixpoint findIndex (agentName : string) (agents : list (@Agent X))
    : option nat :=
  match agents with
  | [] => None
  | agent :: rest =>
      if String.eqb (name agent) agentName then Some 0
      else S <$> findIndex agentName rest
  end.

(** [removeAgent (agentName)]: [splice (index, 1)] at the first agent of
    that name; the tasks keep the agents they were given. *)
Definition removeAgent (team : @Team X) (agentName : string) : bool * Team :=
  match findIndex agentName (agents team) with
  | Some index =>
      (true, {| agents := delete index (agents team); tasks := tasks team |})
  | None => (false, team)
  end.

(** The [initialized] of [getTeamStatus] and [getProcessingStats]. *)
Definition initialized (team : @Team X) : bool :=
  (0 <? length (agents team))%nat && (0 <? length (tasks team))%nat.

End TeamOps.

(** ** The caller: [runRAGProcessing] *)

(** A document found by [discoverDocuments], as far as the workflow reads
    it; the object has no [needsEnhancement]. *)
Record DocumentInfo : Type := {
  docPath : string;
  docFullPath : string;
  docTitle : string;
  docContent : string;
  docWordCount : Z;
}.

(** How the team reads a discovered document: [file.path] and
    [file.title] are those of the object, and [file.needsEnhancement],
    which the object does not have, is [undefined], hence falsy. *)
Definition asFileInfo (d : DocumentInfo) : FileInfo :=
  {| path := docPath d; title := docTitle d; needsEnhancement := false |}.

(** The [summary] of a [ProcessingResult]: [{ message: 'No documents
    found' }], or the answer of the team. *)
Inductive RunSummary : Type :=
  | NoDocumentsFound
  | TeamAnswer (result : TaskResult).

Record ProcessingResult : Type := {
  filesProcessed : Z;
  enhancementsApplied : Z;
  overallRagScore : Z;
  overallProcessingTime : Z;
  overallAgentResults : list AgentRun;
  overallSummary : RunSummary;
}.

Section Caller.
Context {X : Type}.
Context (createEnhancementPR :
           list Proposed.t -> Summary.t -> X -> Result PRResult * X).
Context (loadableAgents : list (@Agent X)).

(** [runRAGProcessing], from the documents that [discoverDocuments]
    found.  The answer of the team has no [successful], [averageRagScore]
    or [agentResults] of its own (its counts are in its [summary]), so
    [result?.successful || 0] and the two like it yield their
    defaults. *)
Definition runRAGProcessing (discovered : list DocumentInfo)
    : M ProcessingResult :=
  startTime ← dateNow;
  match discovered with
  | [] =>
      now ← dateNow;
      mret {| filesProcessed := 0; enhancementsApplied := 0;
              overallRagScore := 0;
              overallProcessingTime := (now - startTime)%Z;
              overallAgentResults := [];
              overallSummary := NoDocumentsFound |}
  | _ =>
      let documentTeam :=
        initialize loadableAgents {| agents := []; tasks := [] |} in
      answer ←
        processDocuments createEnhancementPR loadableAgents documentTeam
          (map asFileInfo discovered);
      now ← dateNow;
      mret {| filesProcessed := Z.of_nat (length discovered);
              enhancementsApplied := 0;
              overallRagScore := 0;
              overallProcessingTime := (now - startTime)%Z;
              overallAgentResults := [];
              overallSummary := TeamAnswer answer.1 |}
  end.

End Caller.

(** ** The calls of a batch *)

Section Calls.
Context {X : Type}.

(** The calls that a batch over the documents [docs], run from the
    directory [root] by a task whose agents are [agents], may make: a read
    of one of the documents, any file-system call below the temporary
    directory, and the invocation of one of the agents. *)
Definition ownCall (root : string) (docs : list FileInfo)
    (agents : list (@Agent X)) (ev : Event) : Prop :=
  match ev with
  | FsReadFile p =>
      under (tempDirOf root) p = true ∨
      ∃ d, d ∈ docs ∧ p = pathJoin root (path d)
  | FsEnsureDir p | FsWriteFile p _ | FsRemove p =>
      under (tempDirOf root) p = true
  | Invoke n _ _ => n ∈ map name agents
  end.

(** From [w] to [w'] the working directory stayed [root] and only such
    calls were made. *)
Definition own (root : string) (docs : list FileInfo)
    (agents : list (@Agent X)) (w w' : @World X) : Prop :=
  cwd w = root →
  cwd w' = root ∧
  ∃ seg, trace w' = trace w ++ seg ∧ Forall (ownCall root docs agents) seg.


End Calls.

(** ** More concrete runs *)

(** A document that is not on the disk. *)
Definition exMissing : FileInfo :=
  {| path := "docs/missing.md"; title := "Missing"; needsEnhancement := true |}.

(** What discovery finds on the site. *)
Definition exDiscovered : list DocumentInfo :=
  [{| docPath := "setup.md";
      docFullPath := "/site/docs-enhanced/sample-docs/setup.md";
      docTitle := "Setup"; docContent := "hello world"; docWordCount := 2 |}].

(** A team set up by hand whose task was given no agent. *)
Definition exTeamWithoutTaskAgents : @Team unit :=
  {| agents := [exScorer "A" 80]; tasks := [{| taskAgents := [] |}] |}.

(** * Properties *)

Section Properties.
Context {X : Type}.
Implicit Types (w : @World X) (agent : @Agent X) (st : LoopState).

(** ** The monad *)

Lemma bind_ok {A B} (m : M A) (f : A → M B) w a w1 :
  m w = (Ok a, w1) → (m ≫= f) w = f a w1.
Proof. intros H. unfold mbind, M_bind. by rewrite H. Qed.

Lemma bind_throw {A B} (m : M A) (f : A → M B) w msg w1 :
  m w = (Throw msg, w1) → (m ≫= f) w = (Throw msg, w1).
Proof. intros H. unfold mbind, M_bind. by rewrite H. Qed.

Lemma bind_inv_ok {A B} (m : M A) (f : A → M B) w b w' :
  (m ≫= f) w = (Ok b, w') → ∃ a w1, m w = (Ok a, w1) ∧ f a w1 = (Ok b, w').
Proof.
  unfold mbind, M_bind. destruct (m w) as [[a|msg] w1]; [eauto|discriminate].
Qed.

Lemma tryCatch_ok {A} (m : M A) h w a w1 :
  m w = (Ok a, w1) → tryCatch m h w = (Ok a, w1).
Proof. intros H. unfold tryCatch. by rewrite H. Qed.

Lemma tryCatch_throw {A} (m : M A) h w msg w1 :
  m w = (Throw msg, w1) → tryCatch m h w = h msg w1.
Proof. intros H. unfold tryCatch. by rewrite H. Qed.

(** ** Steps that leave the disk, the schedule and the trace alone *)

Lemma quiet_refl w : quiet w w.
Proof. by repeat split. Qed.

Lemma quiet_trans w1 w2 w3 : quiet w1 w2 → quiet w2 w3 → quiet w1 w3.
Proof.
  unfold quiet. intros (?&?&?&?&?) (?&?&?&?&?). repeat split; congruence.
Qed.

Lemma dateNow_quiet w : ∃ t w', dateNow w = (Ok t, w') ∧ quiet w w'.
Proof.
  unfold dateNow. destruct (clock w); eexists _, _; (split; [reflexivity|]);
    by repeat split.
Qed.

Lemma console_quiet lvl msg w :
  ∃ w', console lvl msg w = (Ok tt, w') ∧ quiet w w'.
Proof.
  unfold console. destruct (runLogger w) as [l|]; [|eauto using quiet_refl].
  destruct (capturing l); [|eauto using quiet_refl].
  destruct (dateNow_quiet w) as (t & w1 & Hd & Hq).
  erewrite bind_ok by exact Hd. eexists; split; [reflexivity|].
  destruct Hq as (?&?&?&?&?). by repeat split.
Qed.

(** Run the console call or the clock reading at the head of the goal. *)
Ltac run_quiet :=
  lazymatch goal with
  | |- context [ mbind ?f (console ?l ?m) ?w ] =>
      let w' := fresh "w" in
      let H := fresh "Hrun" in
      let Hq := fresh "Hq" in
      destruct (console_quiet l m w) as (w' & H & Hq);
      rewrite (bind_ok (console l m) f w tt w' H); clear H
  | |- context [ mbind ?f dateNow ?w ] =>
      let t := fresh "t" in
      let w' := fresh "w" in
      let H := fresh "Hrun" in
      let Hq := fresh "Hq" in
      destruct (dateNow_quiet w) as (t & w' & H & Hq);
      rewrite (bind_ok dateNow f w t w' H); clear H
  | |- context [ console ?l ?m ?w ] =>
      let w' := fresh "w" in
      let H := fresh "Hrun" in
      let Hq := fresh "Hq" in
      destruct (console_quiet l m w) as (w' & H & Hq);
      rewrite H; clear H
  | |- context [ dateNow ?w ] =>
      let t := fresh "t" in
      let w' := fresh "w" in
      let H := fresh "Hrun" in
      let Hq := fresh "Hq" in
      destruct (dateNow_quiet w) as (t & w' & H & Hq);
      rewrite H; clear H
  end.

Lemma startAgent_quiet total i agent w :
  ∃ t w', startAgent total i agent w = (Ok t, w') ∧ quiet w w'.
Proof.
  unfold startAgent. run_quiet. run_quiet.
  eexists _, _; split; [reflexivity|]. eauto using quiet_trans.
Qed.

Lemma reportSuccess_quiet agent st res pt w :
  ∃ w', reportSuccess agent st res pt w = (Ok tt, w') ∧ quiet w w'.
Proof.
  unfold reportSuccess. run_quiet.
  assert (∃ w', (match improvements res with
                 | Some l => console INFO (pretty (length l) +:+ " improvements made")
                 | None => mret tt
                 end) w0 = (Ok tt, w') ∧ quiet w0 w') as (w1 & H1 & Hq1).
  { destruct (improvements res); [apply console_quiet|].
    eexists; split; [reflexivity|apply quiet_refl]. }
  rewrite (bind_ok _ _ _ _ _ H1).
  repeat case_match; try run_quiet;
    eexists; (split; [reflexivity|]); eauto using quiet_trans, quiet_refl.
Qed.

(** ** The wrapper *)

Lemma isPrefix_append (p s : string) : isPrefix p (p +:+ s) = true.
Proof. induction p as [|a p IH]; [done|]. simpl. by rewrite Ascii.eqb_refl. Qed.

Lemma under_refl (dir : string) : under dir dir = true.
Proof. unfold under. by rewrite String.eqb_refl. Qed.

Lemma append_assoc (a b c : string) : (a +:+ b) +:+ c = a +:+ (b +:+ c).
Proof.
  induction a as [|x a IH]; [done|].
  change (String x ((a +:+ b) +:+ c) = String x (a +:+ (b +:+ c))).
  by rewrite IH.
Qed.

Lemma under_join (dir file : string) : under dir (pathJoin dir file) = true.
Proof.
  unfold under, pathJoin. rewrite <- append_assoc, isPrefix_append.
  apply orb_true_r.
Qed.

Lemma confined_app dir seg1 seg2 :
  confined dir seg1 → confined dir seg2 → confined dir (seg1 ++ seg2).
Proof. intros H1 H2 ev [?|?]%elem_of_app; [by apply H1|by apply H2]. Qed.

Ltac solve_invokes :=
  let n := fresh "n" in
  let h := fresh "h" in
  let i := fresh "i" in
  let Hin := fresh "Hin" in
  let Heq := fresh "Heq" in
  intros n h i Hin;
  repeat (apply elem_of_cons in Hin as [Heq|Hin]; [by simplify_eq|]);
  by apply elem_of_nil in Hin.

Ltac solve_confined :=
  let ev := fresh "ev" in
  let Hin := fresh "Hin" in
  intros ev Hin;
  repeat (apply elem_of_cons in Hin as [->|Hin]);
  [ first [ exact I | apply under_refl | apply under_join ] .. |
    by apply elem_of_nil in Hin ].

Ltac run_prims :=
  unfold readBack, cleanUp, tryCatch, fsEnsureDir, fsWriteFile, fsReadFile,
    fsRemove, callAgent, runBehaviour, emit, nextFault, getFiles, setFiles,
    getCwd, throw, dateNow, mbind, M_bind, mret, M_ret in *.

Lemma runIsolated_outcome agent cw c w r w' :
  runIsolated agent cw c w = (r, w') →
  cwd w' = cwd w ∧
  ∃ seg, trace w' = trace w ++ seg ∧ confined (tempDirOf cw) seg ∧
    invokesOnly seg agent c ∧
    match r with
    | Ok res =>
        (∃ h, Invoke (name agent) h c ∈ seg) ∧
        ∃ c', content res = Some c' ∧
              (c' = c ∨ alteredCopy agent cw (files w) (ext w) c c')
    | Throw _ => True
    end.
Proof.
  unfold runIsolated. run_prims. simpl.
  intros H.
  repeat (case_match; simplify_eq/=).
  all: split; [done|].
  all: eexists; split; [rewrite <- ?app_assoc; reflexivity|].
  all: simpl.
  all: split; [unfold tempFilePathOf; solve_confined|].
  all: split; [solve_invokes|].
  all: try done.
  all: split; [eexists; by repeat constructor|].
  all: eexists; split; [reflexivity|].
  all: try (by left).
  all: right; eexists; simpl.
  all: match goal with H : analyzeContent _ _ _ _ _ = _ |- _ => by rewrite H end.
Qed.

Lemma runFallback_outcome agent fp c td msg w r w' :
  runFallback agent fp c td msg w = (r, w') →
  cwd w' = cwd w ∧
  ∃ seg, trace w' = trace w ++ seg ∧ confined td seg ∧
    invokedWith agent seg c ∧
    match r with
    | Ok res => content res = Some c
    | Throw m => ∃ m', m = "Agent " +:+ name agent +:+ " failed: " +:+ m'
    end.
Proof.
  unfold runFallback. run_quiet. destruct Hq as (Hcwd & _ & _ & _ & Htr).
  run_prims. simpl. intros H.
  repeat (case_match; simplify_eq/=).
  all: split; [done|].
  all: eexists; split; [rewrite Htr, <- ?app_assoc; reflexivity|].
  all: split; [solve_confined|].
  all: split; [split; [solve_invokes|eexists; by repeat constructor]|].
  all: eauto.
Qed.

Lemma runAgentSafely_outcome agent fp c w r w' :
  runAgentSafely agent fp c w = (r, w') →
  cwd w' = cwd w ∧
  ∃ seg, trace w' = trace w ++ seg ∧ confined (tempDirOf (cwd w)) seg ∧
    invokedWith agent seg c ∧
    match r with
    | Ok res =>
        ∃ c', content res = Some c' ∧
              (c' = c ∨ alteredCopy agent (cwd w) (files w) (ext w) c c')
    | Throw m => ∃ m', m = "Agent " +:+ name agent +:+ " failed: " +:+ m'
    end.
Proof.
  unfold runAgentSafely. rewrite (bind_ok getCwd _ w (cwd w) w) by done.
  unfold tryCatch at 1.
  destruct (runIsolated agent (cwd w) c w) as [[res|msg] w1] eqn:Hiso;
    apply runIsolated_outcome in Hiso as (Hcwd & seg & Htr & Hcon & Hinv & Hres).
  - intros [= <- <-]. destruct Hres as (Hex & Hc). split; [done|].
    exists seg. split; [done|]. split; [done|]. split; [by split|]. done.
  - intros Hfb. apply runFallback_outcome in Hfb
      as (Hcwd' & seg' & Htr' & Hcon' & [Hinv' Hex'] & Hres').
    split; [congruence|]. exists (seg ++ seg'). split.
    { by rewrite Htr', Htr, app_assoc. }
    split; [by apply confined_app|].
    split.
    { split.
      - intros n h i [?|?]%elem_of_app; eauto.
      - destruct Hex' as [h ?]. exists h. apply elem_of_app. by right. }
    destruct r; eauto.
Qed.


(** When the creation of the temporary directory is refused, the wrapper
    removes the directory and invokes the agent exactly once, with the
    path and the content it was given; a result comes back with that
    content, a failure comes back tagged with the name of the agent. *)
Lemma refused_setup_runs_fallback agent fp c w msg :
  pendingFault (faults w) = Some msg →
  ∃ r w',
    runAgentSafely agent fp c w = (r, w') ∧
    trace w' = trace w ++ [FsEnsureDir (tempDirOf (cwd w));
                           FsRemove (tempDirOf (cwd w));
                           Invoke (name agent) fp c] ∧
    match r with
    | Ok res => content res = Some c
    | Throw m => ∃ m', m = "Agent " +:+ name agent +:+ " failed: " +:+ m'
    end.
Proof.
  intros Hfault. unfold runAgentSafely.
  rewrite (bind_ok getCwd _ w (cwd w) w) by done.
  destruct (runIsolated agent (cwd w) c w) as [r0 w0] eqn:Hiso.
  assert (∃ m, r0 = Throw m ∧ cwd w0 = cwd w ∧
               trace w0 = trace w ++ [FsEnsureDir (tempDirOf (cwd w))])
    as (m & -> & Hcwd & Htr).
  { revert Hiso. unfold runIsolated. run_prims. simpl. rewrite Hfault.
    intros [= <- <-]. eauto. }
  rewrite (tryCatch_throw _ _ _ _ _ Hiso).
  unfold runFallback. run_quiet. destruct Hq as (Hcwd' & _ & _ & _ & Htr').
  run_prims. simpl.
  repeat (case_match; simplify_eq/=).
  all: eexists _, _; (split; [reflexivity|]); simpl.
  all: rewrite Htr', Htr, <- ?app_assoc; simpl; eauto.
Qed.

(** ** One iteration of the loop *)

Lemma runAgent_cases total i fp agent st w :
  ∃ t0 w1 r w2 w3,
    startAgent total i agent w = (Ok t0, w1) ∧ quiet w w1 ∧
    runAgentSafely agent fp (currentContent st) w1 = (r, w2) ∧ quiet w2 w3 ∧
    match r with
    | Ok res =>
        ∃ pt, runAgent total i fp agent st w
              = (Ok (recordSuccess i agent st res pt), w3)
    | Throw msg =>
        runAgent total i fp agent st w = (Ok (recordFailure i agent st msg), w3)
    end.
Proof.
  destruct (startAgent_quiet total i agent w) as (t0 & w1 & Hstart & Hq1).
  destruct (runAgentSafely agent fp (currentContent st) w1)
    as [[res|msg] w2] eqn:Hwrap.
  - destruct (dateNow_quiet w2) as (t1 & w2' & Hnow & Hq2).
    destruct (reportSuccess_quiet agent st res (t1 - t0) w2')
      as (w3 & Hrep & Hq3).
    exists t0, w1, (Ok res), w2, w3.
    do 3 (split; [done|]). split; [eauto using quiet_trans|].
    exists (t1 - t0)%Z. unfold runAgent. apply tryCatch_ok.
    unfold runAgentStep.
    rewrite (bind_ok _ _ _ _ _ Hstart), (bind_ok _ _ _ _ _ Hwrap),
      (bind_ok _ _ _ _ _ Hnow). simpl.
    by rewrite (bind_ok _ _ _ _ _ Hrep).
  - destruct (console_quiet ERROR (name agent +:+ " failed: " +:+ msg) w2)
      as (w3 & Hcon & Hq3).
    exists t0, w1, (Throw msg), w2, w3. do 4 (split; [done|]).
    unfold runAgent. erewrite tryCatch_throw; last first.
    { unfold runAgentStep.
      rewrite (bind_ok _ _ _ _ _ Hstart). by apply bind_throw. }
    unfold runAgentCatch. by rewrite (bind_ok _ _ _ _ _ Hcon).
Qed.

(** ** What the recorded states hold *)

Lemma recordSuccess_content i agent st res pt :
  currentContent (recordSuccess i agent st res pt)
  = newContentOf res (currentContent st).
Proof.
  unfold recordSuccess; simpl.
  destruct (String.eqb_spec (newContentOf res (currentContent st))
              (currentContent st)) as [->|]; done.
Qed.

Lemma recordSuccess_flag i agent st res pt :
  ∃ r, agentResults (recordSuccess i agent st res pt) = agentResults st ++ [r]
       ∧ result r = Some res ∧ entryOf i agent r ∧ contentModified r = false.
Proof.
  eexists. split; [reflexivity|]. simpl. split; [done|]. split.
  { unfold entryOf; simpl. naive_solver. }
  destruct (String.eqb_spec (newContentOf res (currentContent st))
              (currentContent st)) as [Heq|Hne]; simpl.
  - by rewrite Heq, String.eqb_refl.
  - by rewrite String.eqb_refl.
Qed.

Lemma recordSuccess_evolution i agent st res pt r :
  agentResults (recordSuccess i agent st res pt) = agentResults st ++ [r] →
  contentEvolution (recordSuccess i agent st res pt)
  = contentEvolution st ++ snapshots (currentContent st) [r].
Proof.
  intros [= <-]%app_inv_head. simpl. unfold contentAfter. simpl.
  destruct (String.eqb _ _); simpl; by rewrite ?app_nil_r.
Qed.


Lemma runAgent_outcome total i fp agent st w :
  ∃ st1 w3 r seg,
    runAgent total i fp agent st w = (Ok st1, w3) ∧ cwd w3 = cwd w ∧
    trace w3 = trace w ++ seg ∧ confined (tempDirOf (cwd w)) seg ∧
    invokedWith agent seg (currentContent st) ∧
    agentResults st1 = agentResults st ++ [r] ∧ entryOf i agent r ∧
    contentModified r = false ∧
    currentContent st1 = contentAfter (currentContent st) r ∧
    contentEvolution st1
    = contentEvolution st ++ snapshots (currentContent st) [r].
Proof.
  destruct (runAgent_cases total i fp agent st w)
    as (t0 & w1 & r & w2 & w3 & _ & Hq1 & Hwrap & Hq3 & Hrun).
  apply runAgentSafely_outcome in Hwrap as (Hcwd & seg & Htr & Hcon & Hinv & _).
  destruct Hq1 as (Hc1 & _ & _ & _ & Ht1), Hq3 as (Hc3 & _ & _ & _ & Ht3).
  assert (cwd w3 = cwd w) by congruence.
  assert (trace w3 = trace w ++ seg) by congruence.
  rewrite Hc1 in Hcon.
  destruct r as [res|msg].
  - destruct Hrun as [pt Hrun].
    destruct (recordSuccess_flag i agent st res pt) as (r & Hres & Hr & He & Hf).
    exists (recordSuccess i agent st res pt), w3, r, seg.
    do 8 (split; [done|]). split.
    + rewrite recordSuccess_content. unfold contentAfter. by rewrite Hr.
    + by apply recordSuccess_evolution.
  - eexists (recordFailure i agent st msg), w3, _, seg.
    do 5 (split; [done|]). split; [reflexivity|]. simpl.
    split. { unfold entryOf; simpl. naive_solver. }
    split; [done|]. unfold contentAfter; simpl.
    by rewrite String.eqb_refl, app_nil_r.
Qed.

(** ** The loop over the agents *)

Lemma runAgents_outcome total fp agents :
  ∀ i st w, ∃ st' w' rs segs,
    runAgents total i fp agents st w = (Ok st', w') ∧ cwd w' = cwd w ∧
    trace w' = trace w ++ concat segs ∧
    Forall (confined (tempDirOf (cwd w))) segs ∧
    agentResults st' = agentResults st ++ rs ∧
    length rs = length agents ∧
    Forall3 invokedWith agents segs (inputs (currentContent st) rs) ∧
    contentEvolution st'
    = contentEvolution st ++ snapshots (currentContent st) rs ∧
    currentContent st' = foldl contentAfter (currentContent st) rs ∧
    (∀ k r, rs !! k = Some r →
       ∃ agent, agents !! k = Some agent ∧ entryOf (i + k) agent r ∧
                contentModified r = false).
Proof.
  induction agents as [|agent rest IH]; intros i st w.
  - exists st, w, [], []. simpl. rewrite !app_nil_r.
    repeat split; try done. constructor.
  - destruct (runAgent_outcome total i fp agent st w)
      as (st1 & w1 & r & seg & Hrun & Hcwd & Htr & Hcon & Hinv & Hres & Hent
          & Hflag & Hcur & Hevo).
    destruct (IH (S i) st1 w1)
      as (st' & w' & rs & segs & Hloop & Hcwd' & Htr' & Hcon' & Hres' & Hlen
          & Hall & Hevo' & Hcur' & Hentries).
    rewrite Hcwd in Hcon'.
    exists st', w', (r :: rs), (seg :: segs). simpl.
    rewrite (bind_ok _ _ _ _ _ Hrun). split; [done|].
    split; [congruence|].
    split. { by rewrite Htr', Htr, <- app_assoc. }
    split; [by constructor|].
    split. { by rewrite Hres', Hres, <- app_assoc. }
    split; [by rewrite Hlen|].
    split. { constructor; [done|]. by rewrite <- Hcur. }
    split.
    { rewrite Hevo', Hevo. simpl. rewrite app_nil_r, <- app_assoc.
      by rewrite Hcur. }
    split; [by rewrite Hcur', Hcur|].
    intros [|k] r' Hk; simpl in *.
    + injection Hk as <-. exists agent. rewrite Nat.add_0_r. auto.
    + destruct (Hentries k r' Hk) as (a & Ha & He & Hf). exists a.
      replace (i + S k)%nat with (S i + k)%nat by lia. auto.
Qed.


(** ** One document *)

Lemma fsReadFile_run p w r w1 :
  fsReadFile p w = (r, w1) →
  cwd w1 = cwd w ∧ trace w1 = trace w ++ [FsReadFile p] ∧
  (readable w p → ∃ data, r = Ok data ∧ files w !! p = Some data).
Proof.
  unfold readable. run_prims. simpl. intros H.
  repeat (case_match; simplify_eq/=); repeat split; try done.
  all: intros [? [? ?]]; simplify_eq; eauto.
Qed.

Lemma quiet_readable w w' p : quiet w w' → readable w p → readable w' p.
Proof. intros (?&Hf&?&Hs&?) [? ?]. split; congruence. Qed.

Lemma processFileSequentially_outcome agents fileInfo stats w :
  let fullPath := pathJoin (cwd w) (path fileInfo) in
  ∃ r w1, fsReadFile fullPath w = (r, w1) ∧
    match r with
    | Throw msg =>
        processFileSequentially agents fileInfo stats w = (Throw msg, w1)
    | Ok original =>
        ∃ e s w' segs,
          processFileSequentially agents fileInfo stats w = (Ok (e, s), w') ∧
          cwd w' = cwd w ∧
          trace w' = trace w ++ FsReadFile fullPath :: concat segs ∧
          Forall (confined (tempDirOf (cwd w))) segs ∧
          Enhancement.filePath e = fullPath ∧
          Enhancement.originalContent e = original ∧
          length (Enhancement.agentResults e) = length agents ∧
          Forall3 invokedWith agents segs
            (inputs original (Enhancement.agentResults e)) ∧
          Enhancement.contentEvolution e
          = originalStage original
            :: snapshots original (Enhancement.agentResults e) ∧
          Enhancement.finalContent e
          = foldl contentAfter original (Enhancement.agentResults e) ∧
          Enhancement.ragScore e
          = calculateConsolidatedRAGScore (Enhancement.agentResults e) ∧
          (∀ k r, Enhancement.agentResults e !! k = Some r →
             ∃ agent, agents !! k = Some agent ∧ entryOf k agent r ∧
                      contentModified r = false)
    end.
Proof.
  intros fullPath.
  destruct (fsReadFile fullPath w) as [[original|msg] w1] eqn:Hread;
    eexists _, w1; (split; [reflexivity|]).
  2: { unfold processFileSequentially.
       rewrite (bind_ok getCwd _ w (cwd w) w) by done. simpl.
       by apply bind_throw. }
  apply fsReadFile_run in Hread as Hr. destruct Hr as (Hcwd1 & Htr1 & _).
  unfold processFileSequentially.
  rewrite (bind_ok getCwd _ w (cwd w) w) by done. simpl.
  fold fullPath. rewrite (bind_ok _ _ _ _ _ Hread).
  run_quiet. destruct Hq as (Hcwd2 & _ & _ & _ & Htr2).
  match goal with
  | |- context [ mbind _ (runAgents ?t ?i ?fp agents ?st) ?ww ] =>
      destruct (runAgents_outcome t fp agents i st ww)
        as (st' & w2 & rs & segs & Hloop & Hcwd3 & Htr3 & Hcon & Hres & Hlen
            & Hall & Hevo & Hcur & Hentries)
  end.
  simpl in *. rewrite (bind_ok _ _ _ _ _ Hloop).
  do 3 run_quiet.
  destruct Hq as (Hc4 & _ & _ & _ & Ht4), Hq0 as (Hc5 & _ & _ & _ & Ht5),
    Hq1 as (Hc6 & _ & _ & _ & Ht6).
  eexists _, _, _, segs. split; [reflexivity|]. simpl.
  split; [congruence|].
  split. { rewrite Ht6, Ht5, Ht4, Htr3, Htr2, Htr1, <- app_assoc. done. }
  split. { by rewrite Hcwd2, Hcwd1 in Hcon. }
  rewrite Hres, Hevo, Hcur. by repeat split.
Qed.

Lemma processFile_outcome agents fileInfo b w :
  ∃ b' w',
    processFile agents fileInfo b w = (Ok b', w') ∧ cwd w' = cwd w ∧
    ((∃ e, enhancements b' = enhancements b ++ [e] ∧ errors b' = errors b ∧
           length (Enhancement.agentResults e) = length agents) ∨
     (∃ err, enhancements b' = enhancements b ∧ errors b' = errors b ++ [err] ∧
             ¬ readable w (pathJoin (cwd w) (path fileInfo)))).
Proof.
  unfold processFile.
  destruct (console_quiet INFO ("Processing: " +:+ title fileInfo) w)
    as (w0 & Hcon & Hq).
  destruct (processFileSequentially_outcome agents fileInfo (batchStats b) w0)
    as (r & w1 & Hread & Hrun).
  pose proof Hq as (Hcwd & _).
  destruct r as [original|msg].
  - destruct Hrun as (e & s & w2 & segs & Hrun & Hcwd2 & _ & _ & _ & _ & Hlen & _).
    destruct (console_quiet INFO
                ("Multi-agent analysis complete for: " +:+ title fileInfo) w2)
      as (w3 & Hc3 & Hq3).
    destruct (console_quiet INFO
                ("Total improvements: "
                 +:+ pretty (length (Enhancement.improvements e))) w3)
      as (w4 & Hc4 & Hq4).
    destruct (console_quiet INFO
                ("Final RAG score: " +:+ pretty (Enhancement.ragScore e)
                 +:+ "/100") w4)
      as (w5 & Hc5 & Hq5).
    destruct (console_quiet INFO
                ("Processing time: "
                 +:+ pretty (Enhancement.totalProcessingTime e) +:+ "ms") w5)
      as (w6 & Hc6 & Hq6).
    eexists _, w6. split.
    { apply tryCatch_ok.
      rewrite (bind_ok _ _ _ _ _ Hcon), (bind_ok _ _ _ _ _ Hrun). simpl.
      rewrite (bind_ok _ _ _ _ _ Hc3), (bind_ok _ _ _ _ _ Hc4),
        (bind_ok _ _ _ _ _ Hc5), (bind_ok _ _ _ _ _ Hc6). reflexivity. }
    split.
    { destruct Hq3 as [? _], Hq4 as [? _], Hq5 as [? _], Hq6 as [? _].
      congruence. }
    left. by exists e.
  - destruct (console_quiet ERROR
                ("Error processing " +:+ title fileInfo +:+ ": " +:+ msg) w1)
      as (w2 & Hc2 & Hq2).
    eexists _, w2. split.
    { erewrite tryCatch_throw; last first.
      { rewrite (bind_ok _ _ _ _ _ Hcon). by apply bind_throw. }
      rewrite (bind_ok _ _ _ _ _ Hc2). reflexivity. }
    apply fsReadFile_run in Hread as (Hcwd1 & _ & Hok).
    split. { destruct Hq2 as [? _]. congruence. }
    right. eexists. do 2 (split; [reflexivity|]).
    intros Hr. rewrite <- Hcwd in Hr.
    destruct (Hok (quiet_readable _ _ _ Hq Hr)) as (? & ? & _). done.
Qed.

(** The orchestrator reads the document once, before any agent runs, and
    every later file-system call it makes addresses the temporary
    directory. *)
Lemma document_read_once agents fileInfo stats w e s w' :
  processFileSequentially agents fileInfo stats w = (Ok (e, s), w') →
  ∃ segs,
    trace w' = trace w ++ FsReadFile (Enhancement.filePath e) :: concat segs ∧
    Forall (confined (tempDirOf (cwd w))) segs.
Proof.
  intros Hrun.
  destruct (processFileSequentially_outcome agents fileInfo stats w)
    as (r0 & w1 & _ & Hout).
  destruct r0 as [original|msg]; [|congruence].
  destruct Hout as (e' & s' & w2 & segs & Hrun' & _ & Htr & Hcon & Hfp & _).
  rewrite Hrun in Hrun'. injection Hrun' as <- <- <-.
  exists segs. by rewrite Hfp.
Qed.

(** ** Claims about the sequential orchestrator *)

(** C7.  Whenever a document is processed, the list of agent results has
    exactly one entry per configured agent, in the order of the agents:
    entry [k] belongs to agent [k], carries sequence position [k + 1], and
    is either an entry of a returned invocation (a result, no error) or an
    entry of a thrown one (no result, an error). *)
Theorem one_result_per_agent agents fileInfo stats w e s w' :
  processFileSequentially agents fileInfo stats w = (Ok (e, s), w') →
  length (Enhancement.agentResults e) = length agents ∧
  ∀ k agent, agents !! k = Some agent →
    ∃ r, Enhancement.agentResults e !! k = Some r ∧
         agentName r = name agent ∧ agentRole r = role agent ∧
         sequencePosition r = (Z.of_nat k + 1)%Z ∧
         ((is_Some (result r) ∧ error r = None) ∨
          (result r = None ∧ is_Some (error r))).
Proof.
  intros Hrun.
  destruct (processFileSequentially_outcome agents fileInfo stats w)
    as (r & w1 & _ & Hout).
  destruct r as [original|msg]; [|congruence].
  destruct Hout as (e' & s' & w2 & segs & Hrun' & _ & _ & _ & _ & _ & Hlen & _
                    & _ & _ & _ & Hentries).
  rewrite Hrun in Hrun'. injection Hrun' as <- <- <-.
  split; [done|]. intros k agent Hk.
  destruct (lookup_lt_is_Some_2 (Enhancement.agentResults e) k) as [r Hr].
  { rewrite Hlen. by eapply lookup_lt_Some. }
  destruct (Hentries k r Hr) as (agent' & Hk' & (Hn & Hro & Hp & Hshape) & _).
  assert (agent' = agent) as -> by congruence.
  exists r. do 4 (split; [done|]).
  destruct Hshape as [?|(?&?&?)]; auto.
Qed.

(** C10.  Every entry of the agent results of a processed document has
    its content-modified flag unset, whether or not the agent changed the
    content: the flag compares the new content with the current content
    after the current content has been advanced to it. *)
Theorem contentModified_never_set agents fileInfo stats w e s w' :
  processFileSequentially agents fileInfo stats w = (Ok (e, s), w') →
  ∀ r, r ∈ Enhancement.agentResults e → contentModified r = false.
Proof.
  intros Hrun r [k Hk]%list_elem_of_lookup.
  destruct (processFileSequentially_outcome agents fileInfo stats w)
    as (r0 & w1 & _ & Hout).
  destruct r0 as [original|msg]; [|congruence].
  destruct Hout as (e' & s' & w2 & segs & Hrun' & _ & _ & _ & _ & _ & _ & _
                    & _ & _ & _ & Hentries).
  rewrite Hrun in Hrun'. injection Hrun' as <- <- <-.
  by destruct (Hentries k r Hk) as (_ & _ & _ & ?).
Qed.

(** C2, as amended.  For a processed document the trace consists of the
    single read of the document followed by one segment per agent, in
    order; every invocation in the segment of an agent is an invocation of
    that agent on the content held when its turn came: the original
    content for the first agent, and after each entry the content selected
    from it ([contentAfter]: the [content] of the result if non-empty and
    different from the content held, else its [restructuredContent] under
    the same test, else, as after a failure, the content held).  The
    content evolution is the original entry followed by exactly one entry,
    tagged with the agent's name, for each agent after which the content
    held has changed, and the final content is the content held at the
    end. *)
Theorem content_threading agents fileInfo stats w e s w' :
  processFileSequentially agents fileInfo stats w = (Ok (e, s), w') →
  let original := Enhancement.originalContent e in
  let rs := Enhancement.agentResults e in
  (∃ segs,
     trace w' = trace w ++ FsReadFile (Enhancement.filePath e) :: concat segs ∧
     Forall3 invokedWith agents segs (inputs original rs)) ∧
  Enhancement.contentEvolution e = originalStage original :: snapshots original rs ∧
  Enhancement.finalContent e = foldl contentAfter original rs.
Proof.
  intros Hrun.
  destruct (processFileSequentially_outcome agents fileInfo stats w)
    as (r0 & w1 & _ & Hout).
  destruct r0 as [original|msg]; [|congruence].
  destruct Hout as (e' & s' & w2 & segs & Hrun' & _ & Htr & _ & Hfp & Horig
                    & _ & Hall & Hevo & Hfin & _).
  rewrite Hrun in Hrun'. injection Hrun' as <- <- <-.
  simpl. rewrite Horig, Hfp. split; [by exists segs|]. by split.
Qed.

Lemma updateAgentStats_failure (stats : gmap string AgentStat.t) (n : string) :
  let old := default AgentStat.zero (stats !! n) in
  updateAgentStats stats n false 0 !! n
  = Some {| AgentStat.successful := AgentStat.successful old;
            AgentStat.failed := (AgentStat.failed old + 1)%Z;
            AgentStat.totalProcessingTime := AgentStat.totalProcessingTime old;
            AgentStat.averageProcessingTime :=
              AgentStat.averageProcessingTime old |}
  ∧ ∀ m, m ≠ n → updateAgentStats stats n false 0 !! m = stats !! m.
Proof.
  unfold updateAgentStats.
  destruct (stats !! n) as [old|] eqn:Hn; simpl.
  - rewrite Hn. simpl. split; [by rewrite lookup_insert_eq|].
    intros m Hm. by rewrite lookup_insert_ne.
  - rewrite lookup_insert_eq. simpl. split; [by rewrite lookup_insert_eq|].
    intros m Hm. by rewrite !lookup_insert_ne.
Qed.

(** C1.  When the safe execution wrapper throws [msg] for the agent at
    index [i], the iteration returns normally with the state
    [recordFailure]: a failed entry carrying [msg] is appended to the
    agent results, the failure count of that agent grows by one (the
    statistics of the other agents are untouched), the current content,
    the content evolution and the improvements are unchanged, and the loop
    goes on with agent [i + 1] from that state.  And a document that can
    be read always completes: the batch iteration appends its enhancement,
    with one result per agent, to the enhancements and records no
    error, whatever the agents did. *)
Theorem agent_failure_is_contained :
  (∀ total i fp agent st w t0 w1 msg w2,
     startAgent total i agent w = (Ok t0, w1) →
     runAgentSafely agent fp (currentContent st) w1 = (Throw msg, w2) →
     ∃ st' w3,
       runAgent total i fp agent st w = (Ok st', w3) ∧
       agentResults st' = agentResults st ++ [failedEntry i agent msg] ∧
       AgentStat.failed <$> (agentStats st' !! name agent)
       = Some (AgentStat.failed
                 (default AgentStat.zero (agentStats st !! name agent)) + 1)%Z ∧
       (∀ other, other ≠ name agent →
          agentStats st' !! other = agentStats st !! other) ∧
       currentContent st' = currentContent st ∧
       contentEvolution st' = contentEvolution st ∧
       allImprovements st' = allImprovements st ∧
       ∀ rest,
         runAgents total i fp (agent :: rest) st w
         = runAgents total (S i) fp rest st' w3) ∧
  (∀ agents fileInfo b w,
     readable w (pathJoin (cwd w) (path fileInfo)) →
     ∃ e b' w',
       processFile agents fileInfo b w = (Ok b', w') ∧
       enhancements b' = enhancements b ++ [e] ∧ errors b' = errors b ∧
       length (Enhancement.agentResults e) = length agents).
Proof.
  split.
  - intros total i fp agent st w t0 w1 msg w2 Hstart Hwrap.
    destruct (runAgent_cases total i fp agent st w)
      as (t0' & w1' & r & w2' & w3 & Hstart' & _ & Hwrap' & _ & Hrun).
    rewrite Hstart in Hstart'. injection Hstart' as <- <-.
    rewrite Hwrap in Hwrap'. injection Hwrap' as <- <-.
    exists (recordFailure i agent st msg), w3.
    destruct (updateAgentStats_failure (agentStats st) (name agent))
      as [Hfail Hother].
    split; [done|]. split; [done|].
    unfold recordFailure at 1 2; cbn [agentStats].
    split; [by rewrite Hfail|]. split; [done|]. do 3 (split; [done|]).
    intros rest. cbn [runAgents]. by rewrite (bind_ok _ _ _ _ _ Hrun).
  - intros agents fileInfo b w Hread.
    destruct (processFile_outcome agents fileInfo b w)
      as (b' & w' & Hrun & _ & [(e & ? & ? & ?)|(err & _ & _ & Hno)]).
    + by exists e, b', w'.
    + done.
Qed.

(** ** Claims about the safe execution wrapper *)

(** C4.  Whenever the wrapper returns, the [content] of its result is the
    content it was given, unless the agent altered the working copy it
    was handed, in which case it is what that copy holds after the agent
    ran.  In particular a working copy that cannot be read back yields
    the content given, and so does every result of the fallback. *)
Theorem wrapper_returns_input_content agent fp c :
  (∀ w res w',
     runAgentSafely agent fp c w = (Ok res, w') →
     ∃ c', content res = Some c' ∧
           (c' = c ∨ alteredCopy agent (cwd w) (files w) (ext w) c c')) ∧
  (∀ tempFilePath w msg w1,
     fsReadFile tempFilePath w = (Throw msg, w1) →
     readBack tempFilePath c w = (Ok c, w1)) ∧
  (∀ tempDir msg w res w',
     runFallback agent fp c tempDir msg w = (Ok res, w') →
     content res = Some c).
Proof.
  split; [|split].
  - intros w res w' Hrun.
    by apply runAgentSafely_outcome in Hrun as (_ & _ & _ & _ & _ & ?).
  - intros p w msg w1 Hread. unfold readBack.
    by rewrite (tryCatch_throw _ _ _ _ _ Hread).
  - intros td msg w res w' Hrun.
    by apply runFallback_outcome in Hrun as (_ & _ & _ & _ & _ & ?).
Qed.

(** ** Claims about the consolidated score *)

Lemma metadataScore_firstNonZero m : metadataScore m = firstNonZeroScore m.
Proof.
  unfold metadataScore, firstNonZeroScore, scoreFields, orElse, truthyNum.
  destruct (ragScore m) as [a|], (chunkingScore m) as [b|],
    (validationScore m) as [c|], (seoScore m) as [d|]; simpl.
  all: repeat match goal with
         | |- context [ (?z =? 0)%Z ] => destruct (Z.eqb_spec z 0)
         end; simpl.
  all: repeat (rewrite filter_cons; case_decide; try done); by rewrite ?filter_nil.
Qed.

Lemma pushed_collected rs : concat (map pushedScore rs) = collectedScores rs.
Proof.
  unfold collectedScores.
  induction rs as [|r rs IH]; [done|]. simpl. rewrite IH.
  unfold pushedScore. destruct (result r) as [res|]; [|done].
  destruct (enhancedMetadata res) as [m|]; [|done]. simpl.
  rewrite filter_cons, metadataScore_firstNonZero.
  destruct (Z.ltb_spec 0 (firstNonZeroScore m)); case_decide; done || lia.
Qed.

Lemma roundDiv_nearest s n q :
  (0 < n)%Z → q = roundDiv s n →
  (n * (2 * q - 1) ≤ 2 * s < n * (2 * q + 1))%Z.
Proof.
  intros Hn ->. unfold roundDiv.
  pose proof (Z.div_mod (2 * s + n) (2 * n) ltac:(lia)) as Hdm.
  pose proof (Z.mod_pos_bound (2 * s + n) (2 * n) ltac:(lia)) as Hb.
  nia.
Qed.

Lemma sumZ_from (acc : Z) (l : list Z) : foldl Z.add acc l = (acc + sumZ l)%Z.
Proof.
  unfold sumZ. revert acc. induction l as [|z l IH]; intros acc; simpl; [lia|].
  rewrite IH, (IH (0 + z)%Z). lia.
Qed.

Lemma sumZ_all_75 (l : list Z) :
  Forall (fun z => z = 75%Z) l → sumZ l = (75 * Z.of_nat (length l))%Z.
Proof.
  induction 1 as [|z l -> _ IH]; [done|].
  unfold sumZ in *. simpl. rewrite sumZ_from. unfold sumZ. lia.
Qed.

Lemma noScore_collected rs :
  noScoreReported rs → Forall (fun z => z = 75%Z) (collectedScores rs).
Proof.
  intros Hno. unfold collectedScores.
  apply Forall_forall. intros z [_ Hz]%list_elem_of_filter.
  apply list_elem_of_fmap in Hz as (m & -> & Hm).
  apply list_elem_of_omap in Hm as (r & Hr & Hres).
  destruct (result r) as [res|] eqn:Hresult; [|done].
  specialize (Hno r res m Hr Hresult Hres).
  unfold firstNonZeroScore. by rewrite Hno.
Qed.

(** C3, as amended.  The consolidated score is computed from the scores
    collected from the successful results that carry a metadata object,
    the score of a result being its first present field that is not zero
    in the order quality, structure, validation, keyword-optimization
    score, 75 when it has none, and only positive scores being collected.
    It is 75 when no score is collected, and otherwise the integer
    nearest to the average of the collected scores (halves upward).  When
    no result reports any score field it is exactly 75, and collected
    scores 80 and 60 give 70. *)
Theorem consolidated_score rs :
  let scores := collectedScores rs in
  let n := Z.of_nat (length scores) in
  let q := calculateConsolidatedRAGScore rs in
  (scores = [] → q = 75%Z) ∧
  (scores ≠ [] →
   (n * (2 * q - 1) ≤ 2 * sumZ scores < n * (2 * q + 1))%Z) ∧
  (noScoreReported rs → q = 75%Z) ∧
  (scores = [80; 60]%Z → q = 70%Z).
Proof.
  intros scores n q. subst scores n q.
  unfold calculateConsolidatedRAGScore. rewrite pushed_collected.
  set (scores := collectedScores rs).
  split; [by intros ->|]. split; [|split].
  - intros Hne. destruct scores as [|z l] eqn:Hs; [done|].
    change (0 <? Z.of_nat (length (z :: l)))%Z with true. cbv iota.
    apply roundDiv_nearest; [|done]. simpl length. lia.
  - intros Hno%noScore_collected. fold scores in Hno.
    destruct (Z.ltb_spec 0 (Z.of_nat (length scores))) as [Hpos|]; [|done].
    rewrite (sumZ_all_75 _ Hno). unfold roundDiv.
    symmetry. apply (Z.div_unique _ _ _ (Z.of_nat (length scores))); lia.
  - by intros ->.
Qed.

(** ** The batch *)

Section Batch.
Context (createEnhancementPR :
           list Proposed.t → Summary.t → X → Result PRResult * X).

Ltac run_logger :=
  unfold executeFatal, newRunLogger, logError, finalize, console, writeToFile,
    getRunLogger, setRunLogger, dateNow, mbind, M_bind, mret, M_ret in *.

Lemma newRunLogger_run w :
  ∃ w1 l e,
    newRunLogger w = (Ok tt, w1) ∧ quiet w w1 ∧
    runLogger w1 = Some l ∧ capturing l = true ∧ logEntries l = [e] ∧
    level e = INFO ∧
    message e = "[Run Logger] Capturing console output to: " +:+ logFile l.
Proof.
  run_logger. simpl. repeat (case_match; simplify_eq/=).
  all: eexists _, _, _; (split; [reflexivity|]); simpl; by repeat split.
Qed.

Lemma executeFatal_run msg w :
  ∃ now w', executeFatal msg w = (Ok (TaskFailure msg now), w') ∧ quiet w w'.
Proof.
  run_logger. simpl.
  repeat (case_match; simplify_eq/=).
  all: eexists _, _; (split; [reflexivity|]); by repeat split.
Qed.

Lemma validateInputs_inv agents pf w r w' :
  validateInputs agents pf w = (r, w') →
  w' = w ∧
  match r with
  | Ok docs => pf = FilesArray docs ∧ docs ≠ [] ∧ agents ≠ []
  | Throw msg => msg = rejection pf
  end.
Proof.
  unfold validateInputs, rejection, throw, mbind, M_bind, mret, M_ret.
  destruct pf as [t|[|d ds]], agents as [|a l]; simpl; intros [= <- <-]; done.
Qed.

(** C8.  A batch whose document list is not a list or is empty, or whose
    agent list is empty, is rejected: the [try] block of [execute] does
    nothing but create the run logger and throw, so that at the throw the
    run logger holds its initialisation entry only, no document has been
    read, no agent invoked and no statistics object created; [execute]
    then reports the failure with that message and leaves the files, the
    services and the trace as they were. *)
Theorem invalid_batch_is_rejected agents pf w :
  (∀ docs, pf = FilesArray docs → docs = [] ∨ agents = []) →
  let msg := rejection pf in
  (∀ w0, executeBody createEnhancementPR agents pf w0
         = (newRunLogger;; throw msg) w0) ∧
  (∀ w0, ∃ w1 l e,
     executeBody createEnhancementPR agents pf w0 = (Throw msg, w1) ∧
     runLogger w1 = Some l ∧ logEntries l = [e] ∧
     message e = "[Run Logger] Capturing console output to: " +:+ logFile l ∧
     trace w1 = trace w0 ∧ files w1 = files w0 ∧ ext w1 = ext w0) ∧
  ∃ now w',
    execute createEnhancementPR agents pf w = (Ok (TaskFailure msg now), w') ∧
    trace w' = trace w ∧ files w' = files w ∧ ext w' = ext w.
Proof.
  intros Hbad msg.
  assert (∀ w0, validateInputs agents pf w0 = (Throw msg, w0)) as Hval.
  { intros w0. destruct (validateInputs agents pf w0) as [[docs|m] w0'] eqn:Hv;
      apply validateInputs_inv in Hv as [-> Hv].
    - destruct Hv as (-> & ? & ?). by destruct (Hbad docs eq_refl).
    - by rewrite Hv. }
  assert (∀ w0, executeBody createEnhancementPR agents pf w0
                = (newRunLogger;; throw msg) w0) as Hbody.
  { intros w0. unfold executeBody.
    destruct (newRunLogger_run w0) as (w1 & l & e & Hnew & _).
    rewrite !(bind_ok _ _ _ _ _ Hnew).
    by rewrite (bind_throw _ _ _ _ _ (Hval w1)). }
  split; [done|]. split.
  - intros w0. destruct (newRunLogger_run w0)
      as (w1 & l & e & Hnew & (_ & Hf & Hx & _ & Ht) & Hl & _ & He & _ & Hm).
    exists w1, l, e. rewrite Hbody, (bind_ok _ _ _ _ _ Hnew).
    by repeat split.
  - unfold execute. run_quiet.
    destruct (newRunLogger_run w0) as (w1 & l & e & Hnew & Hq1 & _).
    erewrite tryCatch_throw; last first.
    { rewrite Hbody, (bind_ok _ _ _ _ _ Hnew). reflexivity. }
    destruct (executeFatal_run msg w1) as (now & w' & Hfatal & Hq2).
    exists now, w'. split; [done|].
    destruct Hq as (_ & ? & ? & _ & ?), Hq1 as (_ & ? & ? & _ & ?),
      Hq2 as (_ & ? & ? & _ & ?).
    repeat split; congruence.
Qed.


Lemma processFiles_outcome agents docs :
  ∀ b w, ∃ b' w',
    processFiles agents docs b w = (Ok b', w') ∧
    (length (enhancements b') + length (errors b')
     = length (enhancements b) + length (errors b) + length docs)%nat.
Proof.
  induction docs as [|d docs IH]; intros b w.
  - exists b, w. split; [done|]. simpl. lia.
  - destruct (processFile_outcome agents d b w) as (b1 & w1 & Hrun & _ & Hshape).
    destruct (IH b1 w1) as (b' & w' & Hloop & Hlen).
    exists b', w'. simpl. rewrite (bind_ok _ _ _ _ _ Hrun). split; [done|].
    destruct Hshape as [(e & He1 & He2 & _)|(err & He1 & He2 & _)];
      rewrite He1, He2, length_app in Hlen; simpl in *; lia.
Qed.

Ltac inv_binds H :=
  repeat (let a := fresh "a" in
          let w := fresh "w" in
          let Hstep := fresh "Hstep" in
          apply bind_inv_ok in H as (a & w & Hstep & H)).

Lemma generateWorkflowSummary_inv agents ens errs stats w summary w' :
  generateWorkflowSummary agents ens errs stats w = (Ok summary, w') →
  Summary.successful summary = Z.of_nat (length ens) ∧
  Summary.failed summary = Some (Z.of_nat (length errs)) ∧
  Summary.errors summary = Z.of_nat (length errs) ∧
  Summary.totalFiles summary
  = (Z.of_nat (length ens) + Z.of_nat (length errs))%Z ∧
  Summary.skipped summary = None.
Proof.
  unfold generateWorkflowSummary. intros H. inv_binds H.
  injection H as <- <-. by repeat split.
Qed.

Lemma execute_success agents pf w summary ens errs stats w' :
  execute createEnhancementPR agents pf w
  = (Ok (TaskSuccess summary ens errs stats), w') →
  ∃ docs,
    pf = FilesArray docs ∧
    Summary.successful summary = Z.of_nat (length ens) ∧
    Summary.failed summary = Some (Z.of_nat (length errs)) ∧
    Summary.errors summary = Z.of_nat (length errs) ∧
    Summary.totalFiles summary = Z.of_nat (length docs) ∧
    (length ens + length errs = length docs)%nat ∧
    Summary.skipped summary = None.
Proof.
  unfold execute. run_quiet. unfold tryCatch.
  destruct (executeBody createEnhancementPR agents pf w0) as [[res|msg] w1]
    eqn:Hbody.
  2: { destruct (executeFatal_run msg w1) as (now & w2 & -> & _). done. }
  intros [= -> ->].
  unfold executeBody in Hbody.
  apply bind_inv_ok in Hbody as ([] & w2 & _ & Hbody).
  apply bind_inv_ok in Hbody as (docs & w3 & Hval & Hbody).
  apply validateInputs_inv in Hval as (-> & -> & _ & _).
  apply bind_inv_ok in Hbody as ([] & w4 & _ & Hbody).
  apply bind_inv_ok in Hbody as ([] & w5 & _ & Hbody).
  apply bind_inv_ok in Hbody as (b & w6 & Hfiles & Hbody).
  apply bind_inv_ok in Hbody as (summary0 & w7 & Hsum & Hbody).
  apply bind_inv_ok in Hbody as ([] & w8 & _ & Hbody).
  apply bind_inv_ok in Hbody as (pr & w9 & _ & Hbody).
  apply bind_inv_ok in Hbody as (l & w10 & _ & Hbody).
  apply bind_inv_ok in Hbody as ([] & w11 & _ & Hbody).
  injection Hbody as <- <- <- <- <-.
  apply generateWorkflowSummary_inv in Hsum as (Hs & Hf & He & Ht & Hk).
  match type of Hfiles with
  | processFiles _ _ ?b0 _ = _ =>
      destruct (processFiles_outcome agents docs b0 w5)
        as (b' & w' & Hfiles' & Hlen)
  end.
  rewrite Hfiles in Hfiles'. injection Hfiles' as <- <-. simpl in Hlen.
  exists docs. simpl. repeat split; try done. lia.
Qed.

Lemma filter_split_length {A} (P : A → bool) (l : list A) :
  (length (List.filter P l) + length (List.filter (fun a => negb (P a)) l)
   = length l)%nat.
Proof.
  induction l as [|a l IH]; [done|]. simpl. destruct (P a); simpl; lia.
Qed.

Context (loadableAgents : list (@Agent X)).

(** C9, as amended.  The summary of a batch run by [execute] counts the
    enhancements as successful and the per-document errors as failed, and
    its total is their sum, the number of documents given.  Once the team
    has merged the skipped files into the summary, the total is the
    number of all files, skipped ones included, so that successful plus
    errors plus skipped equals the total; the failed count, when the
    summary has one, is the error count. *)
Theorem summary_counts :
  (∀ agents pf w summary ens errs stats w',
     execute createEnhancementPR agents pf w
     = (Ok (TaskSuccess summary ens errs stats), w') →
     Summary.successful summary = Z.of_nat (length ens) ∧
     Summary.failed summary = Some (Z.of_nat (length errs)) ∧
     (Summary.successful summary + Z.of_nat (length errs)
      = Summary.totalFiles summary)%Z ∧
     ∃ docs, pf = FilesArray docs ∧
             Summary.totalFiles summary = Z.of_nat (length docs)) ∧
  (∀ team processedFiles w summary ens errs stats team' w',
     processDocuments createEnhancementPR loadableAgents team processedFiles w
     = (Ok (TaskSuccess summary ens errs stats, team'), w') →
     let skippedFiles :=
       List.filter (fun file => negb (needsEnhancement file)) processedFiles in
     Summary.skipped summary = Some (Z.of_nat (length skippedFiles)) ∧
     Summary.totalFiles summary = Z.of_nat (length processedFiles) ∧
     (Summary.successful summary + Summary.errors summary
      + Z.of_nat (length skippedFiles) = Summary.totalFiles summary)%Z ∧
     ∀ f, Summary.failed summary = Some f → f = Summary.errors summary).
Proof.
  split.
  - intros agents pf w summary ens errs stats w' Hrun.
    apply execute_success in Hrun
      as (docs & -> & Hs & Hf & He & Ht & Hlen & Hk).
    split; [done|]. split; [done|]. split; [lia|]. by exists docs.
  - intros team processedFiles w summary ens errs stats team' w' Hrun
      skippedFiles.
    pose proof (filter_split_length needsEnhancement processedFiles) as Hsplit.
    fold skippedFiles in Hsplit.
    unfold processDocuments, tryCatch in Hrun.
    fold skippedFiles in Hrun.
    destruct (List.filter needsEnhancement processedFiles) as [|d ds] eqn:Hfil.
    + simpl in Hrun. injection Hrun as <- <- <- <- <- <-. simpl in *.
      repeat split; try done. lia.
    + set (team1 := match agents team, tasks team with
                    | _ :: _, _ :: _ => team
                    | _, _ => initialize loadableAgents team
                    end) in Hrun.
      destruct (tasks team1) as [|task ts].
      { simpl in Hrun. unfold throw, dateNow, mbind, M_bind, mret, M_ret in Hrun.
        by repeat (case_match; simplify_eq/=). }
      match type of Hrun with
      | context [ mbind ?f (execute ?p ?a ?b) ?ww ] =>
          destruct (execute p a b ww) as [[res|msg] w1] eqn:Hexec;
            [rewrite (bind_ok _ _ _ _ _ Hexec) in Hrun
            |rewrite (bind_throw _ _ _ _ _ Hexec) in Hrun]
      end.
      2: { unfold dateNow, mbind, M_bind, mret, M_ret in Hrun.
           by repeat (case_match; simplify_eq/=). }
      destruct res as [summary0 ens0 errs0 stats0|err ts0]; [|done].
      simpl in Hrun. injection Hrun as <- <- <- <- <- <-. simpl.
      apply execute_success in Hexec
        as (docs & [= <-] & Hs & Hf & He & Ht & Hlen & Hk).
      simpl in *. rewrite Hs, He, Hf. repeat split; try done; [lia|].
      by intros f [= <-].
Qed.

End Batch.

End Properties.

(** * The claims on concrete runs *)

(** C1 on agents [A], [B], [C] of which [B] throws: the iteration of [B]
    records the failure and keeps the content, and the document is
    returned as an enhancement with three results. *)
Lemma agent_failure_is_contained_witness :
  (∃ st' w3,
     runAgent 3 1 "/site/docs/setup.md"
       (exThrower "B" "upstream unavailable") exState exWorld
     = (Ok st', w3) ∧
     map error (agentResults st')
     = [Some "Agent B failed: upstream unavailable"] ∧
     AgentStat.failed <$> (agentStats st' !! "B") = Some 1%Z ∧
     currentContent st' = "hello world") ∧
  (∃ e b' w',
     processFile exBThrows exDoc exBatch exWorld = (Ok b', w') ∧
     enhancements b' = [e] ∧ errors b' = [] ∧
     length (Enhancement.agentResults e) = 3%nat).
Proof.
  split.
  - edestruct (proj1 (@agent_failure_is_contained unit) 3%nat 1%nat
                 "/site/docs/setup.md" (exThrower "B" "upstream unavailable")
                 exState exWorld)
      as (st' & w3 & Hrun & Hres & Hfail & _ & Hcur & _).
    { vm_compute; reflexivity. }
    { vm_compute; reflexivity. }
    exists st', w3. split; [exact Hrun|]. split.
    { rewrite Hres. reflexivity. }
    split; [exact Hfail|exact Hcur].
  - destruct (proj2 (@agent_failure_is_contained unit) exBThrows exDoc exBatch
                exWorld)
      as (e & b' & w' & Hrun & Hens & Herrs & Hlen).
    { split; [reflexivity|]. eexists. vm_compute; reflexivity. }
    exists e, b', w'. by repeat split.
Defined.

(** C7 on the same run: three entries, at positions 1, 2 and 3. *)
Lemma one_result_per_agent_witness :
  ∃ e s w',
    processFileSequentially exBThrows exDoc ∅ exWorld = (Ok (e, s), w') ∧
    map sequencePosition (Enhancement.agentResults e) = [1; 2; 3]%Z ∧
    length (Enhancement.agentResults e) = length exBThrows.
Proof.
  eexists _, _, _. split; [vm_compute; reflexivity|].
  split; [vm_compute; reflexivity|].
  eapply proj1, (one_result_per_agent exBThrows exDoc ∅ exWorld).
  vm_compute; reflexivity.
Defined.

(** C10 on agents [A], [B], [C] of which [B] changes the content: the
    evolution has the entry of [B], and no flag is set. *)
Lemma contentModified_never_set_witness :
  ∃ e s w',
    processFileSequentially exOnlyBChanges exDoc ∅ exWorld = (Ok (e, s), w') ∧
    map stage (Enhancement.contentEvolution e) = ["original"; "B"] ∧
    ∀ r, r ∈ Enhancement.agentResults e → contentModified r = false.
Proof.
  eexists _, _, _. split; [vm_compute; reflexivity|].
  split; [vm_compute; reflexivity|].
  eapply (contentModified_never_set exOnlyBChanges exDoc ∅ exWorld).
  vm_compute; reflexivity.
Defined.

(** C2, as amended, on the same run: the evolution is the original entry
    and the entry of [B], and [C] receives what [B] wrote. *)
Lemma content_threading_witness :
  ∃ e s w',
    processFileSequentially exOnlyBChanges exDoc ∅ exWorld = (Ok (e, s), w') ∧
    inputs (Enhancement.originalContent e) (Enhancement.agentResults e)
    = ["hello world"; "hello world"; "hello brave world"] ∧
    map stage (Enhancement.contentEvolution e) = ["original"; "B"] ∧
    (∃ segs,
       trace w' = trace exWorld
                  ++ FsReadFile (Enhancement.filePath e) :: concat segs ∧
       Forall3 invokedWith exOnlyBChanges segs
         (inputs (Enhancement.originalContent e) (Enhancement.agentResults e))).
Proof.
  eexists _, _, _. split; [vm_compute; reflexivity|].
  split; [vm_compute; reflexivity|]. split; [vm_compute; reflexivity|].
  eapply proj1, (content_threading exOnlyBChanges exDoc ∅ exWorld).
  vm_compute; reflexivity.
Defined.

(** C2 as first worded fails: an agent that empties its working copy
    returns a content that differs from the content it received, yet no
    entry is appended for it. *)
Lemma content_threading_counterexample :
  ∃ e s w',
    processFileSequentially [exRewriter "T" ""] exDoc ∅ exWorld
    = (Ok (e, s), w') ∧
    map stage (Enhancement.contentEvolution e)
    ≠ "original"
      :: claimedStages (Enhancement.originalContent e)
           (Enhancement.agentResults e).
Proof.
  eexists _, _, _. split; [vm_compute; reflexivity|].
  vm_compute. discriminate.
Qed.

(** C3 as first worded fails: a quality score of zero is present, yet the
    keyword score is taken. *)
Lemma consolidated_score_counterexample :
  calculateConsolidatedRAGScore exZeroQuality = 40%Z ∧
  claimedConsolidatedScore exZeroQuality = 0%Z.
Proof. split; vm_compute; reflexivity. Qed.

(** C3, as amended, on results reporting 80 and 60. *)
Lemma consolidated_score_witness :
  collectedScores exEightySixty = [80; 60]%Z ∧
  calculateConsolidatedRAGScore exEightySixty = 70%Z.
Proof.
  split; [vm_compute; reflexivity|].
  apply (consolidated_score exEightySixty). vm_compute; reflexivity.
Defined.

(** C4 on a rewriting agent: the result carries what the agent wrote to
    its working copy; after a refused set-up it carries the input. *)
Lemma wrapper_returns_input_content_witness :
  (∃ res w' c',
     runAgentSafely (exRewriter "B" "hello brave world") "/site/docs/setup.md"
       "hello world" exWorld = (Ok res, w') ∧
     content res = Some c' ∧
     (c' = "hello world" ∨
      alteredCopy (exRewriter "B" "hello brave world") "/site"
        (files exWorld) tt "hello world" c')) ∧
  readBack "/site/.temp-agent-processing/temp-B-0.md" "hello world"
    exWorldRefusing
  = (Ok "hello world",
     (fsReadFile "/site/.temp-agent-processing/temp-B-0.md" exWorldRefusing).2) ∧
  (∃ res w',
     runFallback (exRewriter "B" "hello brave world") "/site/docs/setup.md"
       "hello world" "/site/.temp-agent-processing" "EACCES" exWorld
     = (Ok res, w') ∧ content res = Some "hello world").
Proof.
  pose proof (wrapper_returns_input_content
                (exRewriter "B" "hello brave world") "/site/docs/setup.md"
                "hello world") as (Hmain & Hread & Hfall).
  split; [|split].
  - edestruct (Hmain exWorld) as (c' & Hc & Halt); [vm_compute; reflexivity|].
    eexists _, _, c'. split; [vm_compute; reflexivity|]. by split.
  - eapply (Hread _ exWorldRefusing). vm_compute; reflexivity.
  - eexists _, _. split; [vm_compute; reflexivity|].
    eapply (Hfall "/site/.temp-agent-processing" "EACCES" exWorld).
    vm_compute; reflexivity.
Defined.

(** C5: when the set-up of the isolation is refused, the wrapper invokes
    the agent once, on the content it was given, but with the path of the
    document itself as handle; an agent that writes to its handle then
    overwrites the document. *)
Lemma fallback_hands_over_the_document :
  ∃ res w',
    runAgentSafely (exRewriter "B" "hello brave world") "/site/docs/setup.md"
      "hello world" exWorldRefusing = (Ok res, w') ∧
    content res = Some "hello world" ∧
    trace w' = [FsEnsureDir "/site/.temp-agent-processing";
                FsRemove "/site/.temp-agent-processing";
                Invoke "B" "/site/docs/setup.md" "hello world"] ∧
    files exWorldRefusing !! "/site/docs/setup.md" = Some "hello world" ∧
    files w' !! "/site/docs/setup.md" = Some "hello brave world".
Proof.
  eexists _, _. split; [vm_compute; reflexivity|].
  repeat split; vm_compute; reflexivity.
Qed.

(** C6: an agent that overwrites the file it is handed and then throws
    is invoked a second time by the fallback, on the document itself; the
    document is processed, its entry marked failed, and the file on disk
    no longer holds the original content.  The same happens, with an
    agent that only overwrites the file it is handed, when the temporary
    directory cannot be created. *)
Lemma orchestration_overwrites_the_document :
  (∃ e s w',
     processFileSequentially
       [exRewriteThenThrow "B" "hello brave world" "quota exceeded"]
       exDoc ∅ exWorld = (Ok (e, s), w') ∧
     Enhancement.originalContent e = "hello world" ∧
     Enhancement.finalContent e = "hello world" ∧
     Invoke "B" "/site/docs/setup.md" "hello world" ∈ trace w' ∧
     files exWorld !! "/site/docs/setup.md" = Some "hello world" ∧
     files w' !! "/site/docs/setup.md" = Some "hello brave world") ∧
  (∃ e s w',
     processFileSequentially [exRewriter "B" "hello brave world"]
       exDoc ∅ exWorldRefusingSetup = (Ok (e, s), w') ∧
     Enhancement.originalContent e = "hello world" ∧
     Enhancement.finalContent e = "hello world" ∧
     Invoke "B" "/site/docs/setup.md" "hello world" ∈ trace w' ∧
     files exWorldRefusingSetup !! "/site/docs/setup.md" = Some "hello world" ∧
     files w' !! "/site/docs/setup.md" = Some "hello brave world").
Proof.
  split.
  all: eexists _, _, _; split; [vm_compute; reflexivity|].
  all: split; [vm_compute; reflexivity|]; split; [vm_compute; reflexivity|].
  all: split; [vm_compute; by repeat constructor|].
  all: split; vm_compute; reflexivity.
Qed.

(** C8 on an empty document list. *)
Lemma invalid_batch_is_rejected_witness :
  ∃ now w',
    execute exPRTool [exScorer "A" 80] (FilesArray []) exWorld
    = (Ok (TaskFailure "Invalid processedFiles: object" now), w') ∧
    trace w' = [] ∧ files w' = files exWorld.
Proof.
  destruct (invalid_batch_is_rejected exPRTool [exScorer "A" 80]
              (FilesArray []) exWorld)
    as (_ & _ & now & w' & Hrun & Htr & Hfs & _).
  { intros docs [= <-]. by left. }
  exists now, w'. by repeat split.
Defined.

(** C9 as first worded fails after the merge of the team: one document
    enhanced, none failed, and a total of two. *)
Lemma summary_counts_counterexample :
  ∃ summary ens errs stats team' w',
    processDocuments exPRTool [] exTeam [exDoc; exFresh] exWorld
    = (Ok (TaskSuccess summary ens errs stats, team'), w') ∧
    Summary.successful summary = 1%Z ∧
    Summary.failed summary = Some 0%Z ∧
    Summary.totalFiles summary = 2%Z.
Proof.
  eexists _, _, _, _, _, _. split; [vm_compute; reflexivity|].
  repeat split; vm_compute; reflexivity.
Qed.

(** C9, as amended, on the same batch. *)
Lemma summary_counts_witness :
  ∃ summary ens errs stats team' w',
    processDocuments exPRTool [] exTeam [exDoc; exFresh] exWorld
    = (Ok (TaskSuccess summary ens errs stats, team'), w') ∧
    (Summary.successful summary + Summary.errors summary + 1
     = Summary.totalFiles summary)%Z.
Proof.
  eexists _, _, _, _, _, _. split; [vm_compute; reflexivity|].
  eapply (proj2 (summary_counts exPRTool []) exTeam [exDoc; exFresh] exWorld).
  vm_compute; reflexivity.
Defined.

(** * Further properties *)

Section Accounting.
Context {X : Type}.
Implicit Types (w : @World X) (agent : @Agent X) (st : LoopState).

(** ** Statistics *)




Lemma sumZ_cons (z : Z) (l : list Z) : sumZ (z :: l) = (z + sumZ l)%Z.
Proof. unfold sumZ at 1. simpl. rewrite sumZ_from. lia. Qed.




(** ** The loop, as far as the statistics and the improvements go *)

Lemma runAgent_replay total i fp agent st w :
  ∃ st1 w1 r,
    runAgent total i fp agent st w = (Ok st1, w1) ∧
    agentResults st1 = agentResults st ++ [r] ∧
    agentName r = name agent ∧
    agentStats st1 = statsAfter (agentStats st) r ∧
    allImprovements st1 = allImprovements st ++ improvementsOf r.
Proof.
  destruct (runAgent_cases total i fp agent st w)
    as (t0 & w1 & r & w2 & w3 & _ & _ & _ & _ & Hrun).
  destruct r as [res|msg].
  - destruct Hrun as [pt Hrun].
    eexists _, w3, _. split; [exact Hrun|]. split; [reflexivity|].
    split; [reflexivity|]. split; [reflexivity|].
    unfold improvementsOf; simpl. destruct (improvements res); simpl;
      by rewrite ?app_nil_r.
  - eexists _, w3, _. split; [exact Hrun|]. split; [reflexivity|].
    split; [reflexivity|]. split; [reflexivity|]. simpl. by rewrite app_nil_r.
Qed.

Lemma runAgents_replay total fp agents :
  ∀ i st w, ∃ st' w' rs,
    runAgents total i fp agents st w = (Ok st', w') ∧
    agentResults st' = agentResults st ++ rs ∧
    map agentName rs = map name agents ∧
    agentStats st' = foldl statsAfter (agentStats st) rs ∧
    allImprovements st'
    = allImprovements st ++ concat (map improvementsOf rs).
Proof.
  induction agents as [|agent rest IH]; intros i st w.
  - exists st, w, []. simpl. by rewrite !app_nil_r.
  - destruct (runAgent_replay total i fp agent st w)
      as (st1 & w1 & r & Hrun & Hres & Hname & Hstats & Himp).
    destruct (IH (S i) st1 w1)
      as (st' & w' & rs & Hloop & Hres' & Hnames & Hstats' & Himp').
    exists st', w', (r :: rs). simpl.
    rewrite (bind_ok _ _ _ _ _ Hrun). split; [done|].
    split. { by rewrite Hres', Hres, <- app_assoc. }
    split. { by rewrite Hname, Hnames. }
    split. { by rewrite Hstats', Hstats. }
    by rewrite Himp', Himp, <- app_assoc.
Qed.

Lemma console_inv lvl msg w r w' :
  console lvl msg w = (r, w') → r = Ok tt ∧ quiet w w'.
Proof.
  destruct (console_quiet lvl msg w) as (w1 & Hrun & Hq).
  rewrite Hrun. by intros [= <- <-].
Qed.

(** What a returned [processFileSequentially] went through: the read of
    the document, then the loop from the initial state, whose final state
    fills the record. *)
Lemma processFileSequentially_inv agents fileInfo stats w e s w' :
  processFileSequentially agents fileInfo stats w = (Ok (e, s), w') →
  let fullPath := pathJoin (cwd w) (path fileInfo) in
  ∃ original w1 w2 st' w3,
    fsReadFile fullPath w = (Ok original, w1) ∧ quiet w1 w2 ∧
    runAgents (length agents) 0 fullPath agents
      {| agentResults := []; allImprovements := [];
         contentEvolution := [originalStage original];
         currentContent := original; agentStats := stats |} w2
    = (Ok st', w3) ∧
    quiet w3 w' ∧ s = agentStats st' ∧
    Enhancement.filePath e = fullPath ∧
    Enhancement.relativePath e = path fileInfo ∧
    Enhancement.originalContent e = original ∧
    Enhancement.finalContent e = currentContent st' ∧
    Enhancement.contentEvolution e = contentEvolution st' ∧
    Enhancement.agentResults e = agentResults st' ∧
    Enhancement.improvements e = allImprovements st' ∧
    Enhancement.ragScore e = calculateConsolidatedRAGScore (agentResults st') ∧
    Enhancement.addedFields e = extractAddedFields (agentResults st') ∧
    Enhancement.totalProcessingTime e
    = foldl (fun sum r => (sum + processingTime r)%Z) 0%Z (agentResults st').
Proof.
  intros Hrun fullPath. unfold processFileSequentially in Hrun.
  rewrite (bind_ok getCwd _ w (cwd w) w) in Hrun by done. simpl in Hrun.
  fold fullPath in Hrun.
  apply bind_inv_ok in Hrun as (original & w1 & Hread & Hrun).
  apply bind_inv_ok in Hrun as ([] & w2 & [_ Hq2]%console_inv & Hrun).
  apply bind_inv_ok in Hrun as (st' & w3 & Hloop & Hrun).
  apply bind_inv_ok in Hrun as ([] & w4 & [_ Hq4]%console_inv & Hrun).
  apply bind_inv_ok in Hrun as ([] & w5 & [_ Hq5]%console_inv & Hrun).
  apply bind_inv_ok in Hrun as ([] & w6 & [_ Hq6]%console_inv & Hrun).
  injection Hrun as <- <- <-.
  exists original, w1, w2, st', w3. simpl.
  split; [done|]. split; [done|]. split; [exact Hloop|].
  split; [eauto using quiet_trans|]. by repeat split.
Qed.


(** The statistics returned with a processed document are the statistics
    on entry with the entries of the document counted, one after the
    other. *)
Lemma processFileSequentially_stats agents fileInfo stats w e s w' :
  processFileSequentially agents fileInfo stats w = (Ok (e, s), w') →
  s = foldl statsAfter stats (Enhancement.agentResults e) ∧
  map agentName (Enhancement.agentResults e) = map name agents ∧
  Enhancement.improvements e
  = concat (map improvementsOf (Enhancement.agentResults e)).
Proof.
  intros Hrun. apply processFileSequentially_inv in Hrun
    as (original & w1 & w2 & st' & w3 & _ & _ & Hloop & _ & -> & _ & _ & _ & _
        & _ & Hres & Himp & _).
  match type of Hloop with
  | runAgents ?t ?i ?fp _ ?st0 _ = _ =>
      destruct (runAgents_replay t fp agents i st0 w2)
        as (st'' & w'' & rs & Hloop' & Hrs & Hnames & Hstats & Himps)
  end.
  rewrite Hloop in Hloop'. injection Hloop' as <- <-. simpl in *.
  rewrite Hres, Himp, Hrs, Himps. done.
Qed.




Lemma foldl_processingTime (rs : list AgentRun) (acc : Z) :
  foldl (fun sum r => (sum + processingTime r)%Z) acc rs
  = (acc + sumZ (map processingTime rs))%Z.
Proof.
  revert acc. induction rs as [|r rs IH]; intros acc; simpl.
  - unfold sumZ. simpl. lia.
  - rewrite IH, sumZ_cons. lia.
Qed.

Lemma failed_entries_take_no_time (rs : list AgentRun) :
  (∀ r, r ∈ rs → succeeded r = false → processingTime r = 0%Z) →
  sumZ (map processingTime rs)
  = sumZ (map processingTime (List.filter succeeded rs)).
Proof.
  induction rs as [|r rs IH]; intros Hzero; [done|].
  simpl. rewrite sumZ_cons, IH.
  - destruct (succeeded r) eqn:Hr; simpl; rewrite ?sumZ_cons; [done|].
    rewrite (Hzero r); [lia|by left|done].
  - intros r' Hr'. apply Hzero. by right.
Qed.


Lemma processFileSequentially_totals agents fileInfo stats w e s w' :
  processFileSequentially agents fileInfo stats w = (Ok (e, s), w') →
  Enhancement.ragScore e
  = calculateConsolidatedRAGScore (Enhancement.agentResults e) ∧
  length (Enhancement.agentResults e) = length agents ∧
  Enhancement.improvements e
  = concat (map improvementsOf (Enhancement.agentResults e)) ∧
  Enhancement.totalProcessingTime e
  = sumZ (map processingTime
            (List.filter succeeded (Enhancement.agentResults e))).
Proof.
  intros Hrun.
  pose proof (processFileSequentially_stats _ _ _ _ _ _ _ Hrun)
    as (_ & _ & Himp).
  pose proof (processFileSequentially_outcome agents fileInfo stats w)
    as (r & w1 & Hread & Hcase).
  pose proof (processFileSequentially_inv _ _ _ _ _ _ _ Hrun)
    as (original & w1' & w2 & st' & w3 & Hread' & _ & _ & _ & _ & _ & _ & _
        & _ & _ & Hres & _ & _ & _ & Htime).
  rewrite Hread' in Hread. injection Hread as <- <-.
  destruct Hcase as (e0 & s0 & w0 & segs & Hrun0 & Hrest).
  rewrite Hrun in Hrun0. injection Hrun0 as <- <- <-.
  destruct Hrest as (_ & _ & _ & _ & _ & Hlen & _ & _ & _ & Hscore & Hentries).
  split; [done|]. split; [done|]. split; [done|].
  rewrite Htime, <- Hres, foldl_processingTime, Z.add_0_l.
  apply failed_entries_take_no_time. intros r [k Hk]%list_elem_of_lookup Hfail.
  destruct (Hentries k r Hk) as (agent & _ & (_ & _ & _ & Hshape) & _).
  unfold succeeded in Hfail.
  destruct Hshape as [[[res Hres'] _]|(_ & _ & Hzero)]; [|done].
  by rewrite Hres' in Hfail.
Qed.


End Accounting.

Section Evolution.
Context {X : Type}.
Implicit Types (w : @World X) (agent : @Agent X).

(** ** The content evolution *)

Lemma newContentOf_changed res cur :
  newContentOf res cur ≠ cur → newContentOf res cur ≠ "".
Proof.
  unfold newContentOf.
  destruct (differs (content res) cur) eqn:Hc.
  { unfold differs in Hc. destruct (content res) as [c|]; [|done].
    apply andb_true_iff in Hc as [Ht _]. simpl. by destruct c. }
  destruct (differs (restructuredContent res) cur) eqn:Hr; [|done].
  unfold differs in Hr. destruct (restructuredContent res) as [c|]; [|done].
  apply andb_true_iff in Hr as [Ht _]. simpl. by destruct c.
Qed.

Lemma snapshots_entries rs : ∀ cur s,
  s ∈ snapshots cur rs →
  stageWordCount s = Some (wordCount (stageContent s)) ∧
  stageContent s ≠ "" ∧ stage s ∈ map agentName rs.
Proof.
  induction rs as [|r rs IH]; intros cur s; simpl.
  - by intros ?%elem_of_nil.
  - intros [Hs|Hs]%elem_of_app.
    + destruct (String.eqb_spec (contentAfter cur r) cur) as [Heq|Hne].
      { by apply elem_of_nil in Hs. }
      apply list_elem_of_singleton in Hs as ->. simpl.
      split; [done|]. split; [|by left].
      unfold contentAfter in *. destruct (result r); [|done].
      by apply newContentOf_changed.
    + destruct (IH _ _ Hs) as (? & ? & ?). split_and!; try done. by right.
Qed.

Lemma snapshots_length rs : ∀ cur, length (snapshots cur rs) ≤ length rs.
Proof.
  induction rs as [|r rs IH]; intros cur; simpl; [done|].
  rewrite length_app. specialize (IH (contentAfter cur r)).
  destruct (String.eqb _ _); simpl; lia.
Qed.

Lemma snapshots_last rs : ∀ cur s0,
  stageContent s0 = cur →
  stageContent <$> last (s0 :: snapshots cur rs)
  = Some (foldl contentAfter cur rs).
Proof.
  induction rs as [|r rs IH]; intros cur s0 Hs0; simpl.
  - by rewrite Hs0.
  - destruct (String.eqb_spec (contentAfter cur r) cur) as [Heq|Hne].
    + rewrite Heq. simpl. by apply IH.
    + change (stageContent <$> last (s0 :: ?a :: ?l))
        with (stageContent <$> last (a :: l)).
      simpl. by apply IH.
Qed.

Lemma snapshots_adjacent rs : ∀ cur s0,
  stageContent s0 = cur →
  ∀ k a b,
    (s0 :: snapshots cur rs) !! k = Some a →
    (s0 :: snapshots cur rs) !! S k = Some b →
    stageContent a ≠ stageContent b.
Proof.
  induction rs as [|r rs IH]; intros cur s0 Hs0 k a b; simpl.
  - by rewrite lookup_nil.
  - destruct (String.eqb_spec (contentAfter cur r) cur) as [Heq|Hne].
    + rewrite Heq. simpl. apply (IH cur s0 Hs0 k a b).
    + simpl. destruct k as [|k]; simpl.
      * intros [= <-] [= <-]. simpl. congruence.
      * intros Ha Hb.
        eapply (IH (contentAfter cur r) _ (eq_refl : stageContent
          {| stage := agentName r; stageContent := contentAfter cur r;
             stageWordCount := Some (wordCount (contentAfter cur r)) |}
          = contentAfter cur r) k a b); done.
Qed.

(** X3.  The content evolution of a processed document starts with the
    original content and ends with the final content; two consecutive
    entries never hold the same content; every entry after the first
    carries the word count of its content, which is not empty, and the
    name of an agent of the task; and there is at most one such entry
    for each agent. *)
Theorem content_evolution_shape agents fileInfo stats w e s w' :
  processFileSequentially agents fileInfo stats w = (Ok (e, s), w') →
  let evolution := Enhancement.contentEvolution e in
  ∃ later,
    evolution = originalStage (Enhancement.originalContent e) :: later ∧
    stageContent <$> last evolution = Some (Enhancement.finalContent e) ∧
    (∀ k a b, evolution !! k = Some a → evolution !! S k = Some b →
              stageContent a ≠ stageContent b) ∧
    (∀ entry, entry ∈ later →
       stageWordCount entry = Some (wordCount (stageContent entry)) ∧
       stageContent entry ≠ "" ∧ stage entry ∈ map name agents) ∧
    length later ≤ length agents.
Proof.
  intros Hrun. simpl.
  pose proof (processFileSequentially_stats _ _ _ _ _ _ _ Hrun)
    as (_ & Hnames & _).
  pose proof (processFileSequentially_outcome agents fileInfo stats w)
    as (r & w1 & Hread & Hcase).
  pose proof (processFileSequentially_inv _ _ _ _ _ _ _ Hrun)
    as (original & w1' & w2 & st' & w3 & Hread' & _).
  rewrite Hread' in Hread. injection Hread as <- <-.
  destruct Hcase as (e0 & s0 & w0 & segs & Hrun0 & Hrest).
  rewrite Hrun in Hrun0. injection Hrun0 as <- <- <-.
  destruct Hrest as (_ & _ & _ & _ & Horig & Hlen & _ & Hevo & Hfinal & _).
  rewrite Horig, Hevo, Hfinal.
  exists (snapshots original (Enhancement.agentResults e)).
  split; [done|]. split; [by apply snapshots_last|].
  split; [by apply snapshots_adjacent|].
  split; [|rewrite <- Hlen; apply snapshots_length].
  intros entry Hentry. rewrite <- Hnames. by eapply snapshots_entries.
Qed.

(** ** The added fields *)

Lemma addedFields_step (keys : list string) : ∀ (acc : gset string) f,
  f ∈ foldl (fun (acc : gset string) (field : string) =>
               if isPrefix "enhanced_" field then acc else acc ∪ {[field]})
            acc keys
  ↔ f ∈ acc ∨ (f ∈ keys ∧ isPrefix "enhanced_" f = false).
Proof.
  induction keys as [|k keys IH]; intros acc f; cbn [foldl].
  - rewrite elem_of_nil. split; [by left|]. intros [?|[Hno ?]]; [done|].
    destruct Hno.
  - rewrite IH, elem_of_cons. destruct (isPrefix "enhanced_" k) eqn:Hk.
    + split.
      * intros [?|[? ?]]; [by left|right; split; [by right|done]].
      * intros [?|[[->|?] ?]]; [by left|congruence|right; by split].
    + rewrite elem_of_union, elem_of_singleton. split.
      * intros [[? | ->] | [? ?]];
          [by left|right; split; [by left|done]|right; split; [by right|done]].
      * intros [?|[[->|?] ?]]; [left; by left|left; by right|right; by split].
Qed.

Lemma addedFields_from (rs : list AgentRun) : ∀ (acc : gset string) f,
  f ∈ foldl
        (fun (addedFields : gset string) (r : AgentRun) =>
           match result r with
           | Some res =>
               match enhancedMetadata res with
               | Some metadata =>
                   foldl
                     (fun (acc : gset string) (field : string) =>
                        if isPrefix "enhanced_" field then acc
                        else acc ∪ {[field]})
                     addedFields (metadataKeys metadata)
               | None => addedFields
               end
           | None => addedFields
           end)
        acc rs
  ↔ f ∈ acc ∨
    (isPrefix "enhanced_" f = false ∧ ∃ r, r ∈ rs ∧ reportsField f r).
Proof.
  induction rs as [|r rs IH]; intros acc f; cbn [foldl].
  - setoid_rewrite elem_of_nil. split; [by left|].
    intros [?|[_ (r & Hno & _)]]; [done|]. destruct Hno.
  - rewrite IH. setoid_rewrite elem_of_cons. unfold reportsField.
    destruct (result r) as [res|] eqn:Hres;
      [destruct (enhancedMetadata res) as [md|] eqn:Hmd|].
    + rewrite addedFields_step. split.
      * intros [[?|[? ?]]|[? (r' & ? & ?)]]; [by left| |].
        -- right. split; [done|]. exists r. split; [by left|].
           exists res, md. by rewrite Hres.
        -- right. split; [done|]. exists r'. split; [by right|done].
      * intros [?|[Hp (r' & [->|Hin] & Hrep)]]; [by left; left| |].
        -- destruct Hrep as (res' & md' & Hres' & Hmd' & Hkey).
           rewrite Hres in Hres'. injection Hres' as <-.
           rewrite Hmd in Hmd'. injection Hmd' as <-. left; right. done.
        -- right. split; [done|]. by exists r'.
    + split.
      * intros [?|[? (r' & ? & ?)]]; [by left|].
        right. split; [done|]. exists r'. split; [by right|done].
      * intros [?|[Hp (r' & [->|Hin] & Hrep)]]; [by left| |].
        -- destruct Hrep as (res' & md' & Hres' & Hmd' & Hkey).
           rewrite Hres in Hres'. injection Hres' as <-. congruence.
        -- right. split; [done|]. by exists r'.
    + split.
      * intros [?|[? (r' & ? & ?)]]; [by left|].
        right. split; [done|]. exists r'. split; [by right|done].
      * intros [?|[Hp (r' & [->|Hin] & Hrep)]]; [by left| |].
        -- destruct Hrep as (res' & md' & Hres' & Hmd' & Hkey). congruence.
        -- right. split; [done|]. by exists r'.
Qed.

(** X4.  The added fields of a list of entries are exactly the keys of
    the metadata of the entries that hold a result with metadata, the
    keys that start with [enhanced_] left out; an entry of a failed agent
    or a result without metadata adds nothing. *)
Theorem added_fields_characterised (rs : list AgentRun) (f : string) :
  f ∈ extractAddedFields rs
  ↔ isPrefix "enhanced_" f = false ∧ ∃ r, r ∈ rs ∧ reportsField f r.
Proof.
  unfold extractAddedFields. rewrite addedFields_from. split.
  - by intros [?%elem_of_empty|?].
  - by right.
Qed.


(** ** The range of the consolidated score *)

Lemma sumZ_lower (l : list Z) (lo : Z) :
  Forall (fun z => lo ≤ z)%Z l → (Z.of_nat (length l) * lo ≤ sumZ l)%Z.
Proof.
  induction 1 as [|z l Hz Hall IH].
  - unfold sumZ. simpl. lia.
  - rewrite sumZ_cons. cbn [length]. lia.
Qed.


Lemma roundDiv_lower (l : list Z) (lo : Z) :
  l ≠ [] → Forall (fun z => lo ≤ z)%Z l →
  (lo ≤ roundDiv (sumZ l) (Z.of_nat (length l)))%Z.
Proof.
  intros Hne Hall. pose proof (sumZ_lower l lo Hall).
  assert (0 < Z.of_nat (length l))%Z by (destruct l; simpl; [done|lia]).
  unfold roundDiv. apply Z.div_le_lower_bound; lia.
Qed.



Lemma elem_of_concat {A} (x : A) (ls : list (list A)) :
  x ∈ concat ls ↔ ∃ l, x ∈ l ∧ l ∈ ls.
Proof.
  induction ls as [|l ls IH]; simpl.
  - rewrite elem_of_nil. setoid_rewrite elem_of_nil.
    split.
    + by intros [].
    + by intros (l & _ & []).
  - rewrite elem_of_app, IH. setoid_rewrite elem_of_cons. split.
    + intros [?|(l0 & ? & ?)];
        [exists l; split; [done|by left]|exists l0; split; [done|by right]].
    + intros (l0 & ? & [->|?]); [by left|right; by exists l0].
Qed.

Lemma pushedScore_inv (rs : list AgentRun) (z : Z) :
  z ∈ concat (map pushedScore rs) →
  ∃ r res metadata,
    r ∈ rs ∧ result r = Some res ∧ enhancedMetadata res = Some metadata ∧
    z = metadataScore metadata ∧ (0 < z)%Z.
Proof.
  intros (l & Hz & Hl)%elem_of_concat.
  apply list_elem_of_fmap in Hl as (r & -> & Hr).
  unfold pushedScore in Hz.
  destruct (result r) as [res|] eqn:Hres; [|by apply elem_of_nil in Hz].
  destruct (enhancedMetadata res) as [md|] eqn:Hmd;
    [|by apply elem_of_nil in Hz].
  destruct (Z.ltb_spec 0 (metadataScore md)); [|by apply elem_of_nil in Hz].
  apply list_elem_of_singleton in Hz as ->. by exists r, res, md.
Qed.

Lemma consolidated_unfold (rs : list AgentRun) :
  calculateConsolidatedRAGScore rs
  = match concat (map pushedScore rs) with
    | [] => 75%Z
    | scores => roundDiv (sumZ scores) (Z.of_nat (length scores))
    end.
Proof.
  unfold calculateConsolidatedRAGScore.
  destruct (concat (map pushedScore rs)) as [|z l]; [done|].
  by replace (0 <? Z.of_nat (length (z :: l)))%Z with true
    by (symmetry; apply Z.ltb_lt; simpl; lia).
Qed.

Lemma consolidated_lower (rs : list AgentRun) :
  (1 ≤ calculateConsolidatedRAGScore rs)%Z.
Proof.
  rewrite consolidated_unfold.
  destruct (concat (map pushedScore rs)) as [|z l] eqn:Hl; [lia|].
  rewrite <- Hl. apply roundDiv_lower; [by rewrite Hl|].
  apply Forall_forall. intros z' Hz'.
  apply pushedScore_inv in Hz' as (_ & _ & _ & _ & _ & _ & _ & ?). lia.
Qed.


End Evolution.

Section Logging.
Context {X : Type}.
Context (createEnhancementPR :
           list Proposed.t → Summary.t → X → Result PRResult * X).
Implicit Types (w : @World X) (agent : @Agent X) (st : LoopState).

(** ** Composing frames *)

Lemma frames_ret {A} (R : @World X → @World X → Prop) (a : A) :
  (∀ w, R w w) → frames R (mret a).
Proof. intros Hrefl w r w' [= <- <-]. apply Hrefl. Qed.

Lemma frames_throw {A} (R : @World X → @World X → Prop) (msg : string) :
  (∀ w, R w w) → frames R (throw msg : M A).
Proof. intros Hrefl w r w' [= <- <-]. apply Hrefl. Qed.

Lemma frames_bind {A B} (R : @World X → @World X → Prop)
    (m : M A) (f : A → M B) :
  (∀ w1 w2 w3, R w1 w2 → R w2 w3 → R w1 w3) →
  frames R m → (∀ a, frames R (f a)) → frames R (m ≫= f).
Proof.
  intros Htrans Hm Hf w r w'. unfold mbind, M_bind.
  destruct (m w) as [[a|msg] w1] eqn:Hrun.
  - intros Hk. eapply Htrans; [eapply Hm, Hrun|eapply Hf, Hk].
  - intros [= <- <-]. eapply Hm, Hrun.
Qed.

Lemma frames_tryCatch {A} (R : @World X → @World X → Prop)
    (m : M A) (h : string → M A) :
  (∀ w1 w2 w3, R w1 w2 → R w2 w3 → R w1 w3) →
  frames R m → (∀ msg, frames R (h msg)) → frames R (tryCatch m h).
Proof.
  intros Htrans Hm Hh w r w'. unfold tryCatch.
  destruct (m w) as [[a|msg] w1] eqn:Hrun.
  - intros [= <- <-]. eapply Hm, Hrun.
  - intros Hk. eapply Htrans; [eapply Hm, Hrun|eapply Hh, Hk].
Qed.

Lemma returns_ret {A} (a : A) : returns (mret a : @M X A).
Proof. intros w. by exists a, w. Qed.

Lemma returns_bind {A B} (m : @M X A) (f : A → M B) :
  returns m → (∀ a, returns (f a)) → returns (m ≫= f).
Proof.
  intros Hm Hf w. destruct (Hm w) as (a & w1 & Hrun).
  destruct (Hf a w1) as (b & w2 & Hk). exists b, w2.
  by rewrite (bind_ok _ _ _ _ _ Hrun).
Qed.

Lemma returns_tryCatch {A} (m : @M X A) (h : string → M A) :
  (∀ msg, returns (h msg)) → returns (tryCatch m h).
Proof.
  intros Hh w. unfold tryCatch. destruct (m w) as [[a|msg] w1]; [by eauto|].
  apply Hh.
Qed.

(** ** The run logger under console output *)

Lemma extends_refl (l : RunLogger) : extends l l.
Proof.
  split; [done|]. split; [done|]. exists []. simpl. by rewrite !app_nil_r.
Qed.

Lemma extends_trans (l1 l2 l3 : RunLogger) :
  extends l1 l2 → extends l2 l3 → extends l1 l3.
Proof.
  intros (Hf1 & Hc1 & es1 & He1 & Hw1) (Hf2 & Hc2 & es2 & He2 & Hw2).
  split; [congruence|]. split; [congruence|]. exists (es1 ++ es2).
  rewrite He2, He1, Hw2, Hw1, map_app, <- !app_assoc. done.
Qed.

Lemma logs_refl w : logs w w.
Proof.
  unfold logs. destruct (runLogger w) as [l|]; [|done].
  exists l. split; [done|apply extends_refl].
Qed.

Lemma logs_trans w1 w2 w3 : logs w1 w2 → logs w2 w3 → logs w1 w3.
Proof.
  unfold logs. destruct (runLogger w1) as [l1|].
  - intros (l2 & -> & H12) (l3 & -> & H23). exists l3.
    split; [done|]. by eapply extends_trans.
  - by intros ->.
Qed.

Lemma logs_same w w' : runLogger w' = runLogger w → logs w w'.
Proof. intros Heq. unfold logs. rewrite Heq. apply logs_refl. Qed.

Lemma console_logs lvl msg : frames (X:=X) logs (console lvl msg).
Proof.
  intros w r w'. unfold console, logs.
  destruct (runLogger w) as [l|] eqn:Hl; [|by intros [= <- <-]].
  destruct (capturing l) eqn:Hcap.
  - unfold dateNow, setRunLogger, writeToFile, mbind, M_bind.
    destruct (clock w); intros [= <- <-]; simpl.
    all: eexists; split; [reflexivity|].
    all: split; [done|]; split; [done|]; simpl.
    all: by eexists [_].
  - intros [= <- <-]. rewrite Hl. exists l. split; [done|apply extends_refl].
Qed.

Lemma console_returns lvl msg : returns (console lvl msg : @M X unit).
Proof.
  intros w. destruct (console_quiet lvl msg w) as (w' & Hrun & _). eauto.
Qed.


(** ** Everything but the logger's own methods goes through the console *)

Lemma emit_logs ev : frames (X:=X) logs (emit ev).
Proof. intros w r w' [= <- <-]. by apply logs_same. Qed.

Lemma dateNow_logs : frames (X:=X) logs dateNow.
Proof.
  intros w r w'. unfold dateNow.
  destruct (clock w); intros [= <- <-]; by apply logs_same.
Qed.

Lemma nextFault_logs : frames (X:=X) logs nextFault.
Proof.
  intros w r w'. unfold nextFault.
  destruct (pendingFault (faults w)); intros [= <- <-]; by apply logs_same.
Qed.

Lemma getFiles_logs : frames (X:=X) logs getFiles.
Proof. intros w r w' [= <- <-]. by apply logs_same. Qed.

Lemma setFiles_logs fs : frames (X:=X) logs (setFiles fs).
Proof. intros w r w' [= <- <-]. by apply logs_same. Qed.

Lemma getCwd_logs : frames (X:=X) logs getCwd.
Proof. intros w r w' [= <- <-]. by apply logs_same. Qed.

Lemma getRunLogger_logs : frames (X:=X) logs getRunLogger.
Proof. intros w r w' [= <- <-]. by apply logs_same. Qed.

Lemma runBehaviour_logs agent h c : frames (X:=X) logs (runBehaviour agent h c).
Proof.
  intros w r w'. unfold runBehaviour.
  destruct (analyzeContent agent h c (files w) (ext w)) as [[r0 fs] x].
  intros [= <- <-]. by apply logs_same.
Qed.

Lemma callPRTool_logs proposed summary :
  frames (X:=X) logs (callPRTool createEnhancementPR proposed summary).
Proof.
  intros w r w'. unfold callPRTool.
  destruct (createEnhancementPR proposed summary (ext w)) as [r0 x].
  intros [= <- <-]. by apply logs_same.
Qed.

Ltac frame_logs :=
  repeat first
    [ apply frames_ret; apply logs_refl
    | apply frames_throw; apply logs_refl
    | apply console_logs
    | apply emit_logs
    | apply dateNow_logs
    | apply nextFault_logs
    | apply getFiles_logs
    | apply setFiles_logs
    | apply getCwd_logs
    | apply getRunLogger_logs
    | apply runBehaviour_logs
    | apply callPRTool_logs
    | match goal with H : context [frames] |- _ => apply H end
    | eapply frames_bind; [apply logs_trans| |intros ?]
    | eapply frames_tryCatch; [apply logs_trans| |intros ?]
    | case_match ].

Lemma fsReadFile_logs p : frames (X:=X) logs (fsReadFile p).
Proof. unfold fsReadFile. frame_logs. Qed.

Lemma fsWriteFile_logs p d : frames (X:=X) logs (fsWriteFile p d).
Proof. unfold fsWriteFile. frame_logs. Qed.

Lemma fsEnsureDir_logs p : frames (X:=X) logs (fsEnsureDir p).
Proof. unfold fsEnsureDir. frame_logs. Qed.

Lemma fsRemove_logs p : frames (X:=X) logs (fsRemove p).
Proof. unfold fsRemove. frame_logs. Qed.

Lemma runAgentSafely_logs agent fp c : frames (X:=X) logs (runAgentSafely agent fp c).
Proof.
  pose proof fsReadFile_logs. pose proof fsWriteFile_logs.
  pose proof fsEnsureDir_logs. pose proof fsRemove_logs.
  unfold runAgentSafely, runIsolated, runFallback, readBack, cleanUp,
    callAgent.
  frame_logs.
Qed.

Lemma runAgent_logs total i fp agent st : frames (X:=X) logs (runAgent total i fp agent st).
Proof.
  pose proof runAgentSafely_logs.
  unfold runAgent, runAgentStep, runAgentCatch, startAgent, reportSuccess.
  frame_logs.
Qed.

Lemma runAgents_logs total fp agents :
  ∀ i st, frames (X:=X) logs (runAgents total i fp agents st).
Proof.
  pose proof runAgent_logs.
  induction agents as [|agent rest IH]; intros i st; simpl; frame_logs.
  all: try apply IH.
Qed.

Lemma processFileSequentially_logs agents fileInfo stats :
  frames (X:=X) logs (processFileSequentially agents fileInfo stats).
Proof.
  pose proof fsReadFile_logs. pose proof runAgents_logs.
  unfold processFileSequentially. frame_logs.
Qed.

Lemma processFile_logs agents fileInfo b :
  frames (X:=X) logs (processFile agents fileInfo b).
Proof.
  pose proof processFileSequentially_logs.
  unfold processFile. frame_logs.
Qed.

Lemma processFiles_logs agents docs :
  ∀ b, frames (X:=X) logs (processFiles agents docs b).
Proof.
  pose proof processFile_logs.
  induction docs as [|d docs IH]; intros b; simpl; frame_logs.
Qed.

Lemma announceAgents_logs agents :
  ∀ i, frames (X:=X) logs (announceAgents i agents).
Proof.
  induction agents as [|agent rest IH]; intros i; simpl; frame_logs.
Qed.

Lemma announceAgents_returns agents :
  ∀ i, returns (announceAgents (X:=X) i agents).
Proof.
  induction agents as [|agent rest IH]; intros i; simpl.
  - apply returns_ret.
  - apply returns_bind; [apply console_returns|]. intros _. apply IH.
Qed.

Lemma generateWorkflowSummary_logs agents ens errs stats :
  frames (X:=X) logs (generateWorkflowSummary agents ens errs stats).
Proof. unfold generateWorkflowSummary. frame_logs. Qed.

Lemma dateNow_returns : returns (dateNow (X:=X)).
Proof. intros w. destruct (dateNow_quiet w) as (t & w' & Hrun & _). eauto. Qed.

Lemma generateWorkflowSummary_returns agents ens errs stats :
  returns (generateWorkflowSummary (X:=X) agents ens errs stats).
Proof.
  unfold generateWorkflowSummary.
  repeat (apply returns_bind; [apply console_returns|intros _]).
  apply returns_bind; [apply dateNow_returns|intros now]. apply returns_ret.
Qed.

Lemma createGitHubPR_logs agents ens summary :
  frames (X:=X) logs (createGitHubPR createEnhancementPR agents ens summary).
Proof. unfold createGitHubPR. frame_logs. Qed.

Lemma createGitHubPR_returns agents ens summary :
  returns (createGitHubPR createEnhancementPR agents ens summary).
Proof.
  unfold createGitHubPR. apply returns_tryCatch. intros msg.
  apply returns_bind; [apply console_returns|intros _]. apply returns_ret.
Qed.

End Logging.

Section BatchRun.
Context {X : Type}.
Context (createEnhancementPR :
           list Proposed.t → Summary.t → X → Result PRResult * X).
Implicit Types (w : @World X) (agent : @Agent X) (st : LoopState).
Implicit Types (agents : list (@Agent X)).

(** ** One document of the batch *)

Lemma processFile_cases agents d b w :
  ∃ w0 r w1 w',
    quiet w w0 ∧ logs w w0 ∧
    processFileSequentially agents d (batchStats b) w0 = (r, w1) ∧
    quiet w1 w' ∧ logs w1 w' ∧
    processFile agents d b w
    = (Ok match r with
          | Ok (e, s) =>
              {| enhancements := enhancements b ++ [e]; errors := errors b;
                 batchStats := s |}
          | Throw msg =>
              {| enhancements := enhancements b;
                 errors :=
                   errors b ++
                   [{| DocError.file := title d; DocError.error := msg |}];
                 batchStats := batchStats b |}
          end, w').
Proof.
  unfold processFile.
  destruct (console_quiet INFO ("Processing: " +:+ title d) w)
    as (w0 & Hcon & Hq).
  pose proof (console_logs _ _ _ _ _ Hcon) as Hl.
  destruct (processFileSequentially agents d (batchStats b) w0)
    as [[[e s]|msg] w1] eqn:Hrun.
  - destruct (console_quiet INFO
                ("Multi-agent analysis complete for: " +:+ title d) w1)
      as (w3 & Hc3 & Hq3).
    destruct (console_quiet INFO
                ("Total improvements: "
                 +:+ pretty (length (Enhancement.improvements e))) w3)
      as (w4 & Hc4 & Hq4).
    destruct (console_quiet INFO
                ("Final RAG score: " +:+ pretty (Enhancement.ragScore e)
                 +:+ "/100") w4)
      as (w5 & Hc5 & Hq5).
    destruct (console_quiet INFO
                ("Processing time: "
                 +:+ pretty (Enhancement.totalProcessingTime e) +:+ "ms") w5)
      as (w6 & Hc6 & Hq6).
    exists w0, (Ok (e, s)), w1, w6. split; [done|]. split; [done|].
    split; [done|]. split; [eauto using quiet_trans|].
    split.
    { eapply logs_trans; [eapply console_logs, Hc3|].
      eapply logs_trans; [eapply console_logs, Hc4|].
      eapply logs_trans; [eapply console_logs, Hc5|].
      eapply console_logs, Hc6. }
    apply tryCatch_ok.
    rewrite (bind_ok _ _ _ _ _ Hcon), (bind_ok _ _ _ _ _ Hrun). simpl.
    rewrite (bind_ok _ _ _ _ _ Hc3), (bind_ok _ _ _ _ _ Hc4),
      (bind_ok _ _ _ _ _ Hc5), (bind_ok _ _ _ _ _ Hc6). reflexivity.
  - destruct (console_quiet ERROR
                ("Error processing " +:+ title d +:+ ": " +:+ msg) w1)
      as (w2 & Hc2 & Hq2).
    exists w0, (Throw msg), w1, w2. split; [done|]. split; [done|].
    split; [done|]. split; [done|]. split; [eapply console_logs, Hc2|].
    erewrite tryCatch_throw; last first.
    { rewrite (bind_ok _ _ _ _ _ Hcon). by apply bind_throw. }
    rewrite (bind_ok _ _ _ _ _ Hc2). reflexivity.
Qed.

(** ** The loop over the documents *)

Lemma processFiles_replay agents docs :
  ∀ b w, ∃ b' w' outcomes,
    processFiles agents docs b w = (Ok b', w') ∧
    Forall2 (outcomeOf agents) docs outcomes ∧
    enhancements b' = enhancements b ++ enhancementsOf outcomes ∧
    errors b' = errors b ++ errorsOf outcomes ∧
    batchStats b'
    = foldl statsAfter (batchStats b)
        (concat (map Enhancement.agentResults (enhancementsOf outcomes))).
Proof.
  induction docs as [|d docs IH]; intros b w.
  - exists b, w, []. simpl. split; [done|]. split; [constructor|].
    by rewrite !app_nil_r.
  - destruct (processFile_cases agents d b w)
      as (w0 & r & w1 & w2 & _ & _ & Hdoc & _ & _ & Hrun).
    simpl. rewrite (bind_ok _ _ _ _ _ Hrun).
    destruct r as [[e s]|msg].
    + match goal with
      | |- context [ processFiles agents docs ?b1 w2 ] =>
          destruct (IH b1 w2) as (b' & w' & outcomes & Hloop & Hall & He & Hr & Hs)
      end.
      simpl in *. exists b', w', (inl e :: outcomes).
      split; [done|]. split.
      { constructor; [|done]. split; [|by eexists _, _, _, _].
        by apply processFileSequentially_inv in Hdoc
          as (? & ? & ? & ? & ? & _ & _ & _ & _ & _ & _ & ? & _). }
      simpl. rewrite He, Hr, Hs, <- app_assoc. split; [done|]. split; [done|].
      apply processFileSequentially_stats in Hdoc as (-> & _ & _).
      by rewrite foldl_app.
    + match goal with
      | |- context [ processFiles agents docs ?b1 w2 ] =>
          destruct (IH b1 w2) as (b' & w' & outcomes & Hloop & Hall & He & Hr & Hs)
      end.
      simpl in *.
      exists b', w',
        (inr {| DocError.file := title d; DocError.error := msg |} :: outcomes).
      split; [done|]. split.
      { constructor; [|done]. split; [done|]. by eexists _, _, _. }
      simpl. rewrite He, Hr, Hs, <- app_assoc. done.
Qed.

Lemma outcomes_length (outcomes : list Outcome) :
  length (enhancementsOf outcomes) + length (errorsOf outcomes)
  = length outcomes.
Proof.
  induction outcomes as [|[e|err] os IH]; simpl; [done| |];
    unfold enhancementsOf, errorsOf in *; simpl; lia.
Qed.


(** ** The run logger over a batch *)

Lemma newRunLogger_logging w :
  ∃ w1, newRunLogger w = (Ok tt, w1) ∧ quiet w w1 ∧ logging w1.
Proof.
  unfold logging, newRunLogger, console, writeToFile, setRunLogger, dateNow,
    mbind, M_bind, mret, M_ret. simpl.
  repeat (case_match; simplify_eq/=).
  all: eexists; split; [reflexivity|]; split; [by repeat split|].
  all: eexists; split; [reflexivity|]; simpl; by split_and!.
Qed.

Lemma logging_logs w w' : logging w → logs w w' → logging w'.
Proof.
  intros (l & Hl & Hcap & Hne & Hw). unfold logs. rewrite Hl.
  intros (l' & Hl' & Hf & Hc & es & He & Hw').
  exists l'. split; [done|]. split; [congruence|].
  split. { rewrite He. by destruct (logEntries l). }
  by rewrite Hw', He, Hw, map_app.
Qed.

Lemma step_logging {A} (m : @M X A) w :
  returns m → frames logs m → logging w →
  ∃ a w', m w = (Ok a, w') ∧ logging w'.
Proof.
  intros Hret Hfr Hlog. destruct (Hret w) as (a & w' & Hrun).
  exists a, w'. split; [done|]. eapply logging_logs; [done|]. eapply Hfr, Hrun.
Qed.

Lemma finalize_closes l summary w :
  capturing l = true → logEntries l ≠ [] →
  written l = map lineOf (logEntries l) →
  ∃ ts l' w',
    finalize l summary w = (Ok tt, w') ∧ quiet w w' ∧
    runLogger w' = Some l' ∧ logFile l' = logFile l ∧
    logEntries l' = logEntries l ∧
    closedWith l' [Closing ts summary (length (logEntries l'))].
Proof.
  intros Hcap Hne Hw.
  unfold finalize, closedWith, writeToFile, setRunLogger, dateNow, mbind,
    M_bind. simpl.
  destruct (clock w); eexists _, _, _; (split; [reflexivity|]); simpl.
  all: split; [by repeat split|]; split; [reflexivity|]; simpl.
  all: rewrite Hw; by split_and!.
Qed.

Lemma processFiles_returns agents docs b :
  returns (processFiles (X:=X) agents docs b).
Proof.
  intros w. destruct (processFiles_replay agents docs b w)
    as (b' & w' & _ & Hrun & _). eauto.
Qed.

(** ** A valid batch *)

Lemma execute_valid agents docs w :
  docs ≠ [] → agents ≠ [] →
  ∃ w1 b w2 summary w3 w4 pr w5 l ts w',
    processFiles agents docs
      {| enhancements := []; errors := [];
         batchStats := initializeAgentStats agents |} w1 = (Ok b, w2) ∧
    generateWorkflowSummary agents (enhancements b) (errors b) (batchStats b)
      w2 = (Ok summary, w3) ∧
    createGitHubPR createEnhancementPR agents (enhancements b) summary w4
    = (Ok pr, w5) ∧
    execute createEnhancementPR agents (FilesArray docs) w
    = (Ok (TaskSuccess (withGithubPR summary pr) (enhancements b) (errors b)
             (Some (batchStats b))), w') ∧
    runLogger w' = Some l ∧
    closedWith l [Closing ts (inl summary) (length (logEntries l))].
Proof.
  intros Hdocs Hagents. unfold execute.
  destruct (console_quiet INFO
              "[Multi-Agent Task] Starting sequential agent workflow..." w)
    as (w0 & Hc0 & _).
  rewrite (bind_ok _ _ _ _ _ Hc0).
  destruct (newRunLogger_logging w0) as (w1 & Hnew & _ & Hlog1).
  assert (validateInputs agents (FilesArray docs) w1 = (Ok docs, w1)) as Hval.
  { unfold validateInputs, mbind, M_bind, mret, M_ret.
    by destruct docs, agents. }
  destruct (step_logging
              (console INFO
                 ("[Multi-Agent Task] Processing with "
                  +:+ pretty (length agents) +:+ " agents in sequence")) w1)
    as ([] & w2 & Hc2 & Hlog2);
    [apply console_returns|apply console_logs|done|].
  destruct (step_logging (announceAgents 0 agents) w2)
    as ([] & w3 & Hc3 & Hlog3);
    [apply announceAgents_returns|apply announceAgents_logs|done|].
  destruct (step_logging
              (processFiles agents docs
                 {| enhancements := []; errors := [];
                    batchStats := initializeAgentStats agents |}) w3)
    as (b & w4 & Hc4 & Hlog4);
    [apply processFiles_returns|apply processFiles_logs|done|].
  destruct (step_logging
              (generateWorkflowSummary agents (enhancements b) (errors b)
                 (batchStats b)) w4)
    as (summary & w5 & Hc5 & Hlog5);
    [apply generateWorkflowSummary_returns|apply generateWorkflowSummary_logs
    |done|].
  destruct (step_logging
              (console INFO
                 "[Multi-Agent Task] Creating GitHub PR with all enhancements...")
              w5)
    as ([] & w6 & Hc6 & Hlog6);
    [apply console_returns|apply console_logs|done|].
  destruct (step_logging
              (createGitHubPR createEnhancementPR agents (enhancements b)
                 summary) w6)
    as (pr & w7 & Hc7 & Hlog7);
    [apply createGitHubPR_returns|apply createGitHubPR_logs|done|].
  destruct Hlog7 as (l7 & Hl7 & Hcap7 & Hne7 & Hw7).
  destruct (finalize_closes l7 (inl summary) w7 Hcap7 Hne7 Hw7)
    as (ts & l8 & w8 & Hfin & _ & Hl8 & _ & _ & Hclosed).
  exists w3, b, w4, summary, w5, w6, pr, w7, l8, ts, w8.
  split; [done|]. split; [done|]. split; [done|]. split; [|done].
  apply tryCatch_ok. unfold executeBody.
  rewrite (bind_ok _ _ _ _ _ Hnew), (bind_ok _ _ _ _ _ Hval),
    (bind_ok _ _ _ _ _ Hc2), (bind_ok _ _ _ _ _ Hc3), (bind_ok _ _ _ _ _ Hc4),
    (bind_ok _ _ _ _ _ Hc5), (bind_ok _ _ _ _ _ Hc6), (bind_ok _ _ _ _ _ Hc7).
  rewrite (bind_ok getRunLogger _ w7 (Some l7) w7)
    by (unfold getRunLogger; by rewrite Hl7).
  rewrite (bind_ok _ _ _ _ _ Hfin). reflexivity.
Qed.


(** ** A rejected batch *)

Lemma validateInputs_rejects agents pf w :
  (∀ docs, pf = FilesArray docs → docs = [] ∨ agents = []) →
  validateInputs agents pf w = (Throw (rejection pf), w).
Proof.
  intros Hbad.
  destruct (validateInputs agents pf w) as [[docs|m] w'] eqn:Hv;
    apply validateInputs_inv in Hv as [-> Hv].
  - destruct Hv as (-> & ? & ?). by destruct (Hbad docs eq_refl).
  - by rewrite Hv.
Qed.

Lemma executeFatal_closes msg w :
  logging w →
  ∃ now l (ts ts' : Z) w',
    executeFatal msg w = (Ok (TaskFailure msg now), w') ∧
    runLogger w' = Some l ∧
    closedWith l
      [Line ("[" +:+ pretty ts +:+ "] FATAL: FATAL ERROR: " +:+ msg);
       Closing ts' (inr msg) (length (logEntries l))].
Proof.
  intros (l & Hl & Hcap & Hne & Hw).
  unfold executeFatal, closedWith, logError, finalize, console, writeToFile,
    getRunLogger, setRunLogger, dateNow, mbind, M_bind, mret, M_ret.
  rewrite Hl, Hcap. simpl.
  destruct (clock w) as [|t1 [|t2 [|t3 [|t4 c]]]] eqn:Hclk;
    repeat (progress (simpl; rewrite ?Hclk)).
  all: eexists _, _, _, _, _; (split; [reflexivity|]); simpl.
  all: split; [reflexivity|]; simpl.
  all: split; [done|]; split; [by destruct (logEntries l)|].
  all: rewrite Hw, map_app, <- app_assoc; reflexivity.
Qed.

Lemma execute_rejects agents pf w :
  (∀ docs, pf = FilesArray docs → docs = [] ∨ agents = []) →
  ∃ now l (ts ts' : Z) w',
    execute createEnhancementPR agents pf w
    = (Ok (TaskFailure (rejection pf) now), w') ∧
    runLogger w' = Some l ∧
    closedWith l
      [Line ("[" +:+ pretty ts +:+ "] FATAL: FATAL ERROR: " +:+ rejection pf);
       Closing ts' (inr (rejection pf)) (length (logEntries l))].
Proof.
  intros Hbad. unfold execute.
  destruct (console_quiet INFO
              "[Multi-Agent Task] Starting sequential agent workflow..." w)
    as (w0 & Hc0 & _).
  rewrite (bind_ok _ _ _ _ _ Hc0).
  destruct (newRunLogger_logging w0) as (w1 & Hnew & _ & Hlog1).
  destruct (executeFatal_closes (rejection pf) w1 Hlog1)
    as (now & l & ts & ts' & w' & Hfatal & Hl & Hclosed).
  exists now, l, ts, ts', w'. split; [|done].
  erewrite tryCatch_throw; [exact Hfatal|].
  unfold executeBody. rewrite (bind_ok _ _ _ _ _ Hnew).
  apply bind_throw. by apply validateInputs_rejects.
Qed.

Lemma batch_validity (agents : list (@Agent X)) pf :
  (∃ docs, pf = FilesArray docs ∧ docs ≠ [] ∧ agents ≠ []) ∨
  (∀ docs, pf = FilesArray docs → docs = [] ∨ agents = []).
Proof.
  destruct pf as [t|[|d ds]]; [by right|right; intros ? [= <-]; by left|].
  destruct agents as [|a l]; [right; by right|].
  left. by exists (d :: ds).
Qed.



(** ** The statistics of a batch *)





Lemma outcomes_produced agents docs outcomes :
  Forall2 (outcomeOf agents) docs outcomes →
  Forall (produced agents) (enhancementsOf outcomes).
Proof.
  induction 1 as [|d o docs os Ho _ IH]; [constructor|].
  destruct o as [e|err]; simpl; [|done].
  constructor; [|done]. destruct Ho as (_ & stats & w & s & w' & Hrun).
  by exists d, stats, w, s, w'.
Qed.


(** X6.  A batch with at least one document and a task with at least one
    agent always comes back successful, with one record or one error for
    each document and with the answer of the pull-request step in the
    summary: neither a document that cannot be read, nor an agent that
    fails, nor a pull request that cannot be created fails the batch. *)
Theorem valid_batch_always_succeeds agents docs w :
  docs ≠ [] → agents ≠ [] →
  ∃ summary ens errs stats w',
    execute createEnhancementPR agents (FilesArray docs) w
    = (Ok (TaskSuccess summary ens errs (Some stats)), w') ∧
    (length ens + length errs = length docs)%nat ∧
    is_Some (Summary.githubPR summary).
Proof.
  intros Hdocs Hagents.
  destruct (execute_valid agents docs w Hdocs Hagents)
    as (w1 & b & w2 & summary0 & w3 & w4 & pr & w5 & l & ts & w6
        & Hfiles & Hsum & Hpr & Hexec & Hl & Hclosed).
  eexists _, _, _, _, _. split; [exact Hexec|]. split; [|by eexists].
  match type of Hfiles with
  | processFiles _ _ ?b0 _ = _ =>
      destruct (processFiles_replay agents docs b0 w1)
        as (b' & w2' & outcomes & Hfiles' & Hall & He & Hr & Hs)
  end.
  rewrite Hfiles in Hfiles'. injection Hfiles' as <- <-. simpl in *.
  rewrite He, Hr, outcomes_length. symmetry. by eapply Forall2_length.
Qed.




(** ** The summary of a batch *)


Lemma produced_totals agents e :
  produced agents e →
  (1 ≤ Enhancement.ragScore e)%Z ∧
  length (Enhancement.agentResults e) = length agents ∧
  Enhancement.improvements e
  = concat (map improvementsOf (Enhancement.agentResults e)) ∧
  Enhancement.totalProcessingTime e
  = sumZ (map processingTime
            (List.filter succeeded (Enhancement.agentResults e))).
Proof.
  intros (d & stats & w & s & w' & Hrun).
  apply processFileSequentially_totals in Hrun as (-> & ? & ? & ?).
  split; [apply consolidated_lower|done].
Qed.






(** ** The run log *)


(** ** The pull request *)


(** ** A document that cannot be read *)



End BatchRun.

Section TeamRun.
Context {X : Type}.
Context (createEnhancementPR :
           list Proposed.t → Summary.t → X → Result PRResult * X).
Context (loadableAgents : list (@Agent X)).
Implicit Types (w : @World X) (agent : @Agent X) (team : @Team X).
Implicit Types (agents : list (@Agent X)).

(** ** Adding and removing agents *)

Lemma addAgent_spec team agent :
  addAgent team agent
  = {| agents := agents team ++ take (maxAgents - length (agents team)) [agent];
       tasks := tasks team |}.
Proof.
  unfold addAgent. destruct (Nat.leb_spec maxAgents (length (agents team))).
  - replace (maxAgents - length (agents team)) with 0 by lia.
    simpl. rewrite app_nil_r. by destruct team.
  - destruct (maxAgents - length (agents team)) eqn:Hroom; [lia|].
    cbn [take]. by rewrite take_nil.
Qed.

Lemma addAgents_run (newAgents : list (@Agent X)) : ∀ team added,
  foldl
    (fun (acc : Team * list string) agent =>
       (addAgent acc.1 agent,
        if addAgentAccepts acc.1 then acc.2 ++ [name agent] else acc.2))
    (team, added) newAgents
  = let room := maxAgents - length (agents team) in
    ({| agents := agents team ++ take room newAgents; tasks := tasks team |},
     added ++ map name (take room newAgents)).
Proof.
  induction newAgents as [|a l IH]; intros team added; cbn [foldl].
  - simpl. rewrite !take_nil, !app_nil_r. by destruct team.
  - rewrite IH. cbn [fst snd]. unfold addAgentAccepts, addAgent.
    destruct (Nat.leb_spec maxAgents (length (agents team))) as [Hfull|Hroom].
    + simpl. replace (maxAgents - length (agents team)) with 0 by lia. done.
    + cbn [agents tasks negb]. rewrite length_app. cbn [length].
      destruct (maxAgents - length (agents team)) as [|room] eqn:Hr; [lia|].
      replace (maxAgents - (length (agents team) + 1)) with room by lia.
      cbn [take map]. by rewrite <- !app_assoc.
Qed.

Lemma foldl_addAgent (newAgents : list (@Agent X)) : ∀ team,
  foldl addAgent team newAgents
  = {| agents :=
         agents team ++ take (maxAgents - length (agents team)) newAgents;
       tasks := tasks team |}.
Proof.
  induction newAgents as [|a l IH]; intros team; cbn [foldl].
  - rewrite take_nil, app_nil_r. by destruct team.
  - rewrite IH. unfold addAgent.
    destruct (Nat.leb_spec maxAgents (length (agents team))) as [Hfull|Hroom].
    + replace (maxAgents - length (agents team)) with 0 by lia. done.
    + cbn [agents tasks]. rewrite length_app. cbn [length].
      destruct (maxAgents - length (agents team)) as [|room] eqn:Hr; [lia|].
      replace (maxAgents - (length (agents team) + 1)) with room by lia.
      cbn [take]. by rewrite <- app_assoc.
Qed.

(** X13.  Adding agents fills the team up to its capacity and no
    further: of the agents given, those that still find room, the first
    ones, are appended in order and their names returned, the others are
    dropped; the agents already in the team and its tasks are untouched,
    and a team within its capacity stays within it. *)
Theorem addAgents_fills_up team (newAgents : list (@Agent X)) :
  let room := maxAgents - length (agents team) in
  let '(team', added) := addAgents team newAgents in
  agents team' = agents team ++ take room newAgents ∧
  added = map name (take room newAgents) ∧
  tasks team' = tasks team ∧
  (length (agents team) ≤ maxAgents → length (agents team') ≤ maxAgents).
Proof.
  unfold addAgents. rewrite addAgents_run. simpl.
  split; [done|]. split; [done|]. split; [done|].
  intros Hcap. rewrite length_app, length_take. lia.
Qed.

Lemma findIndex_spec (n : string) agents :
  match findIndex n agents with
  | Some i =>
      ∃ before a after,
        agents = before ++ a :: after ∧ length before = i ∧ name a = n ∧
        n ∉ map name before
  | None => n ∉ map name agents
  end.
Proof.
  induction agents as [|a l IH]; simpl; [by intros ?%elem_of_nil|].
  destruct (String.eqb_spec (name a) n) as [Heq|Hne].
  - exists [], a, l. split_and!; try done. by intros ?%elem_of_nil.
  - destruct (findIndex n l) as [i|]; simpl.
    + destruct IH as (before & a' & after & -> & <- & Hn & Hout).
      exists (a :: before), a', after. split_and!; try done.
      simpl. by intros [?|?]%elem_of_cons.
    + by intros [?|?]%elem_of_cons.
Qed.

Lemma findIndex_fresh (n : string) agents agent :
  n ∉ map name agents → name agent = n →
  findIndex n (agents ++ [agent]) = Some (length agents).
Proof.
  intros Hout Hname. induction agents as [|a l IH]; simpl.
  - by rewrite Hname, String.eqb_refl.
  - destruct (String.eqb_spec (name a) n) as [Heq|Hne].
    + exfalso. apply Hout. simpl. apply elem_of_cons. by left.
    + rewrite IH; [done|]. intros Hin. apply Hout. simpl.
      apply elem_of_cons. by right.
Qed.

(** X14.  Removing an agent by name removes the first agent of that name
    and nothing else: the agents before and after it keep their order, a
    later agent of the same name stays, and the tasks keep the agents
    they were given; for a name that no agent of the team has, the team
    is returned as it was, with [false].  Removing an agent that was just
    added under a new name gives the team back. *)
Theorem removeAgent_removes_first team (n : string) :
  (n ∉ map name (agents team) → removeAgent team n = (false, team)) ∧
  (n ∈ map name (agents team) →
   ∃ before a after,
     agents team = before ++ a :: after ∧ name a = n ∧
     (n ∉ map name before) ∧
     removeAgent team n
     = (true, {| agents := before ++ after; tasks := tasks team |})) ∧
  (∀ agent, name agent = n → n ∉ map name (agents team) →
            length (agents team) < maxAgents →
            removeAgent (addAgent team agent) n = (true, team)).
Proof.
  assert (∀ team', n ∈ map name (agents team') →
            ∃ before a after,
              agents team' = before ++ a :: after ∧ name a = n ∧
              (n ∉ map name before) ∧
              removeAgent team' n
              = (true, {| agents := before ++ after; tasks := tasks team' |}))
    as Hin.
  { intros team' Hn. unfold removeAgent.
    pose proof (findIndex_spec n (agents team')) as Hspec.
    destruct (findIndex n (agents team')) as [i|]; [|done].
    destruct Hspec as (before & a & after & Heq & <- & Hname & Hout).
    exists before, a, after. split_and!; try done.
    rewrite Heq. by rewrite delete_middle. }
  split_and!; [|apply Hin|].
  - intros Hout. unfold removeAgent.
    pose proof (findIndex_spec n (agents team)) as Hspec.
    destruct (findIndex n (agents team)) as [i|]; [|done].
    destruct Hspec as (before & a & after & Heq & _ & Hname & _).
    exfalso. apply Hout. rewrite Heq, map_app. apply elem_of_app. right.
    simpl. apply elem_of_cons. by left.
  - intros agent Hname Hout Hroom. rewrite addAgent_spec.
    destruct (maxAgents - length (agents team)) eqn:Hr; [lia|]. cbn [take].
    rewrite take_nil. unfold removeAgent. cbn [agents tasks].
    rewrite (findIndex_fresh n (agents team) agent Hout Hname).
    rewrite delete_middle, app_nil_r. by destruct team.
Qed.


(** ** Initialising the team *)

Lemma initialize_ready team :
  1 ≤ length (agents (initialize loadableAgents team)) ∧
  tasks (initialize loadableAgents team)
  = [{| taskAgents := agents (initialize loadableAgents team) |}].
Proof.
  unfold initialize, loadAllAgents. rewrite foldl_addAgent. simpl.
  split; [|done]. rewrite ?Nat.sub_0_r, length_take.
  unfold maxAgents. destruct loadableAgents; simpl; lia.
Qed.

(** X15.  Initialising gives a team that is ready to run, whatever it
    held before: its agents are the agents that load, in order, up to the
    capacity of the team, or the mock agent when none loads, so it never
    has no agent; it has exactly one task, and the task has the agents of
    the team. *)
Theorem initialize_yields_a_ready_team team :
  let team' := initialize loadableAgents team in
  agents team'
  = take maxAgents
      (match loadableAgents with [] => [mockAgent] | _ => loadableAgents end) ∧
  1 ≤ length (agents team') ≤ maxAgents ∧
  tasks team' = [{| taskAgents := agents team' |}] ∧
  initialized team' = true ∧
  (loadableAgents ≠ [] → length loadableAgents ≤ maxAgents →
   agents team' = loadableAgents).
Proof.
  unfold initialize, loadAllAgents. rewrite foldl_addAgent.
  cbn [agents tasks length app]. rewrite Nat.sub_0_r.
  set (loaded := match loadableAgents with
                 | [] => [mockAgent]
                 | _ => loadableAgents
                 end).
  assert (1 ≤ length loaded) as Hone
    by (unfold loaded; destruct loadableAgents; simpl; lia).
  assert (1 ≤ length (take maxAgents loaded) ≤ maxAgents) as Hlen
    by (rewrite length_take; unfold maxAgents; lia).
  split; [done|]. split; [done|]. split; [done|]. split.
  - unfold initialized. simpl.
    destruct (take maxAgents loaded); [simpl in Hlen; lia|done].
  - intros Hne Hcap. unfold loaded. destruct loadableAgents; [done|].
    by apply take_ge.
Qed.

(** ** Running the team *)

Lemma initialized_cases team :
  match agents team, tasks team with
  | _ :: _, _ :: _ => team
  | _, _ => initialize loadableAgents team
  end
  = if initialized team then team else initialize loadableAgents team.
Proof. unfold initialized. by destruct (agents team), (tasks team). Qed.

(** X16.  A team run with at least one file to enhance always succeeds,
    provided the task of a team that is already set up has an agent (a
    team that is not set up is initialised on the way): every file to
    enhance gives a record or an error, every record holds one entry for
    each agent of the task, and the summary counts the agents of the
    team. *)
Theorem team_run_always_succeeds team processedFiles w :
  List.filter needsEnhancement processedFiles ≠ [] →
  (initialized team = true →
   ∃ task rest, tasks team = task :: rest ∧ taskAgents task ≠ []) →
  ∃ summary ens errs stats team' task w',
    processDocuments createEnhancementPR loadableAgents team processedFiles w
    = (Ok (TaskSuccess summary ens errs (Some stats), team'), w') ∧
    team' = (if initialized team then team
             else initialize loadableAgents team) ∧
    head (tasks team') = Some task ∧
    (initialized team = false → taskAgents task = agents team') ∧
    (length ens + length errs
     = length (List.filter needsEnhancement processedFiles))%nat ∧
    Forall (fun e => length (Enhancement.agentResults e)
                     = length (taskAgents task)) ens ∧
    Summary.agentCount summary = Z.of_nat (length (agents team')).
Proof.
  intros Hfiles Hready. unfold processDocuments.
  destruct (List.filter needsEnhancement processedFiles) as [|d ds] eqn:Hfil;
    [done|].
  rewrite initialized_cases.
  set (team1 := if initialized team then team
                else initialize loadableAgents team).
  assert (∃ task rest, tasks team1 = task :: rest ∧ taskAgents task ≠ [] ∧
            (initialized team = false → taskAgents task = agents team1))
    as (task & rest & Htasks & Hagents & Hsame).
  { unfold team1. destruct (initialized team) eqn:Hinit.
    - destruct (Hready eq_refl) as (task & rest & ? & ?).
      by exists task, rest.
    - destruct (initialize_ready team) as (Hone & Ht).
      eexists _, []. split; [exact Ht|]. split; [|done].
      cbn [taskAgents]. intros Hnil. rewrite Hnil in Hone. simpl in Hone. lia. }
  rewrite Htasks.
  destruct (execute_valid createEnhancementPR (taskAgents task) (d :: ds) w
              ltac:(done) Hagents)
    as (w1 & b & w2 & summary0 & w3 & w4 & pr & w5 & l & ts & w6
        & Hdocs & Hsum & Hpr & Hexec & Hl & Hclosed).
  match type of Hdocs with
  | processFiles _ _ ?b0 _ = _ =>
      destruct (processFiles_replay (taskAgents task) (d :: ds) b0 w1)
        as (b' & w2' & outcomes & Hdocs' & Hall & He & Hr & Hs)
  end.
  rewrite Hdocs in Hdocs'. injection Hdocs' as <- <-. simpl in He, Hr.
  eexists _, _, _, _, team1, task, w6. split.
  { apply tryCatch_ok. rewrite (bind_ok _ _ _ _ _ Hexec). reflexivity. }
  split; [done|]. split; [by rewrite Htasks|]. split; [done|].
  split. { rewrite He, Hr, outcomes_length. symmetry.
           by eapply Forall2_length. }
  split; [|done].
  rewrite He. apply outcomes_produced in Hall.
  eapply Forall_impl; [exact Hall|]. intros e He'.
  by apply produced_totals in He' as (_ & ? & _).
Qed.

(** X21.  A team run never throws, and it fails in one way only: the
    team was already set up, by hand, with a first task that has no
    agent, and the task rejects the batch for that reason.  The team is
    then returned as it was. *)
Theorem team_run_fails_only_without_agents team processedFiles w :
  (∃ answer team' w',
     processDocuments createEnhancementPR loadableAgents team processedFiles w
     = (Ok (answer, team'), w')) ∧
  (∀ msg ts team' w',
     processDocuments createEnhancementPR loadableAgents team processedFiles w
     = (Ok (TaskFailure msg ts, team'), w') →
     msg = "No agents available for processing" ∧ team' = team ∧
     initialized team = true ∧
     ∃ task rest, tasks team = task :: rest ∧ taskAgents task = []).
Proof.
  unfold processDocuments, tryCatch.
  destruct (List.filter needsEnhancement processedFiles) as [|d ds] eqn:Hfil.
  { split; [by eexists _, _, _|]. intros msg ts team' w' Hrun. done. }
  rewrite initialized_cases.
  destruct (initialized team) eqn:Hinit.
  - assert (∃ task rest, tasks team = task :: rest) as (task & rest & Htasks).
    { unfold initialized in Hinit. destruct (tasks team) as [|t l]; eauto.
      by rewrite andb_false_r in Hinit. }
    rewrite Htasks.
    destruct (batch_validity (taskAgents task) (FilesArray (d :: ds)))
      as [(docs & [= <-] & _ & Hagents)|Hbad].
    + destruct (execute_valid createEnhancementPR (taskAgents task) (d :: ds) w
                  ltac:(done) Hagents)
        as (w1 & b & w2 & summary0 & w3 & w4 & pr & w5 & l & ts & w6
            & _ & _ & _ & Hexec & _).
      rewrite (bind_ok _ _ _ _ _ Hexec). simpl.
      split; [by eexists _, _, _|]. intros msg ts' team' w' Hrun. done.
    + destruct (execute_rejects createEnhancementPR (taskAgents task)
                  (FilesArray (d :: ds)) w Hbad)
        as (now & l & ts & ts' & w1 & Hexec & _).
      rewrite (bind_ok _ _ _ _ _ Hexec). simpl.
      split; [by eexists _, _, _|]. intros msg ts'' team' w' [= <- <- <- <-].
      split_and!; try done. exists task, rest. split; [done|].
      by destruct (Hbad (d :: ds) eq_refl).
  - destruct (initialize_ready team) as (Hone & Htasks). rewrite Htasks.
    assert (agents (initialize loadableAgents team) ≠ []) as Hagents.
    { intros Hnil. rewrite Hnil in Hone. simpl in Hone. lia. }
    destruct (execute_valid createEnhancementPR
                (agents (initialize loadableAgents team)) (d :: ds) w
                ltac:(done) Hagents)
      as (w1 & b & w2 & summary0 & w3 & w4 & pr & w5 & l & ts & w6
          & _ & _ & _ & Hexec & _).
    cbn [taskAgents]. rewrite (bind_ok _ _ _ _ _ Hexec). simpl.
    split; [by eexists _, _, _|]. intros msg ts' team' w' Hrun. done.
Qed.

(** ** The caller *)

Lemma discovered_need_nothing (discovered : list DocumentInfo) :
  List.filter needsEnhancement (map asFileInfo discovered) = [] ∧
  List.filter (fun file => negb (needsEnhancement file))
    (map asFileInfo discovered) = map asFileInfo discovered.
Proof.
  induction discovered as [|d l [IH1 IH2]]; [done|]. simpl.
  by rewrite IH1, IH2.
Qed.

(** X17.  Nothing that [discoverDocuments] finds is ever enhanced: its
    documents carry no [needsEnhancement], so the team skips them all.
    Run on any documents found, the workflow reads no file, invokes no
    agent, creates no pull request and opens no run log; the team
    answers with a successful summary that counts every file as skipped,
    and the result reports the files as processed and no enhancement
    applied. *)
Theorem discovered_documents_are_all_skipped
    (discovered : list DocumentInfo) w :
  discovered ≠ [] →
  ∃ res summary w',
    runRAGProcessing createEnhancementPR loadableAgents discovered w
    = (Ok res, w') ∧
    overallSummary res = TeamAnswer (TaskSuccess summary [] [] None) ∧
    Summary.skipped summary = Some (Z.of_nat (length discovered)) ∧
    Summary.totalFiles summary = Z.of_nat (length discovered) ∧
    Summary.successful summary = 0%Z ∧
    filesProcessed res = Z.of_nat (length discovered) ∧
    enhancementsApplied res = 0%Z ∧
    trace w' = trace w ∧ files w' = files w ∧ ext w' = ext w ∧
    faults w' = faults w ∧ runLogger w' = runLogger w.
Proof.
  intros Hne.
  assert (runRAGProcessing createEnhancementPR loadableAgents discovered w
          = (startTime ← dateNow;
             answer ←
               processDocuments createEnhancementPR loadableAgents
                 (initialize loadableAgents {| agents := []; tasks := [] |})
                 (map asFileInfo discovered);
             now ← dateNow;
             mret {| filesProcessed := Z.of_nat (length discovered);
                     enhancementsApplied := 0;
                     overallRagScore := 0;
                     overallProcessingTime := (now - startTime)%Z;
                     overallAgentResults := [];
                     overallSummary := TeamAnswer answer.1 |}) w) as ->.
  { unfold runRAGProcessing. by destruct discovered. }
  destruct (dateNow_quiet w) as (t0 & w0 & Ht0 & Hq0).
  rewrite (bind_ok _ _ _ _ _ Ht0).
  destruct (discovered_need_nothing discovered) as [Hnone Hall].
  unfold processDocuments, tryCatch. rewrite Hnone, Hall.
  unfold mbind at 1, M_bind at 1. cbn [mret M_ret].
  destruct (dateNow_quiet w0) as (t1 & w1 & Ht1 & Hq1).
  rewrite (bind_ok _ _ _ _ _ Ht1).
  eexists _, _, w1. split; [reflexivity|]. cbn -[length Z.of_nat].
  rewrite !length_map.
  destruct Hq0 as (_ & ? & ? & ? & ?), Hq1 as (_ & ? & ? & ? & ?).
  assert (runLogger w1 = runLogger w) as Hlog.
  { revert Ht0 Ht1. unfold dateNow.
    destruct (clock w), (clock w0); intros [= <- <-] [= <- <-]; done. }
  split_and!; try done; congruence.
Qed.

End TeamRun.

Section Wrapper.
Context {X : Type}.
Implicit Types (w : @World X) (agent : @Agent X).

(** ** The working copy *)

(** X18.  When the file system lets the wrapper work and the agent
    returns on its working copy, the copy does not outlive the call: the
    wrapper creates the temporary directory, writes the content to a file
    named after the agent and the time, runs the agent on it, reads it
    back and removes it; the result carries what the copy held when the
    agent returned (the content given if the agent deleted it), and every
    other file is as the agent left it. *)
Theorem isolated_run_cleans_up agent fp c w res fs x :
  let tmp := tempFilePathOf (cwd w) (name agent) (hd 0%Z (clock w)) in
  Forall (fun f => f = None) (take 4 (faults w)) →
  analyzeContent agent tmp c (<[tmp := c]> (files w)) (ext w) = (Ok res, fs, x) →
  ∃ w',
    runAgentSafely agent fp c w
    = (Ok (withContent res (default c (fs !! tmp))), w') ∧
    files w' = filter (fun kv : string * string => under tmp kv.1 = false) fs ∧
    files w' !! tmp = None ∧
    ext w' = x ∧
    trace w'
    = trace w ++
      [FsEnsureDir (tempDirOf (cwd w)); FsWriteFile tmp c;
       Invoke (name agent) tmp c; FsReadFile tmp; FsRemove tmp].
Proof.
  intros tmp Hfaults Hagent.
  assert (filter (fun kv : string * string => under tmp kv.1 = false) fs
          !! tmp = None) as Hgone.
  { apply map_lookup_filter_None. right. intros v _. simpl.
    by rewrite under_refl. }
  unfold runAgentSafely, runIsolated, readBack, cleanUp, callAgent,
    fsEnsureDir, fsWriteFile, fsReadFile, fsRemove, emit, nextFault, dateNow,
    getFiles, setFiles, getCwd, runBehaviour, tryCatch, throw, mbind, M_bind,
    mret, M_ret.
  cbn [cwd files ext faults clock trace runLogger].
  unfold tmp in *. clear tmp.
  destruct (faults w) as [|f1 [|f2 [|f3 [|f4 rest]]]] eqn:Hf;
    repeat match goal with
           | H : Forall _ (take _ (_ :: _)) |- _ => cbn [take] in H
           | H : Forall _ (_ :: _) |- _ =>
               apply Forall_cons in H as [-> H]
           end;
    cbn [pendingFault tail].
  all: destruct (clock w) as [|t0 ts] eqn:Hc;
    cbn [hd cwd files ext faults clock trace runLogger pendingFault tail] in *.
  all: rewrite Hagent;
    cbn [cwd files ext faults clock trace runLogger pendingFault tail].
  all: destruct (fs !! _) as [data|] eqn:Hcopy;
    cbn [default cwd files ext faults clock trace runLogger pendingFault tail].
  all: eexists; split; [reflexivity|];
    cbn [cwd files ext faults clock trace runLogger].
  all: rewrite <- ?app_assoc; split_and!; done.
Qed.

(** ** The name of the working copy *)

Lemma isAlnum_dash : isAlnum "-" = false.
Proof. reflexivity. Qed.

(** X19.  The part of the name of the working copy that comes from the
    name of the agent is plain: it is as long as the name, every
    character of it is a letter or a digit of the ASCII range or a dash,
    so that it holds no path separator and no dot, and sanitising it
    again changes nothing. *)
Theorem sanitised_name_is_plain (s : string) :
  String.length (replaceNonAlnum s) = String.length s ∧
  Forall (fun ch => isAlnum ch = true ∨ ch = "-"%char)
    (String.list_ascii_of_string (replaceNonAlnum s)) ∧
  Forall (fun ch => ch ≠ "/"%char ∧ ch ≠ "."%char)
    (String.list_ascii_of_string (replaceNonAlnum s)) ∧
  replaceNonAlnum (replaceNonAlnum s) = replaceNonAlnum s.
Proof.
  induction s as [|ch s (IHlen & IHplain & IHsep & IHidem)]; simpl.
  - by split_and!.
  - rewrite IHlen. split; [done|].
    destruct (isAlnum ch) eqn:Hch.
    + rewrite Hch, IHidem. split_and!; try done.
      * constructor; [by left|done].
      * constructor; [|done]. split; intros ->; discriminate.
    + rewrite isAlnum_dash, IHidem. split_and!; try done.
      * constructor; [by right|done].
      * constructor; [|done]. split; discriminate.
Qed.

End Wrapper.

Section Footprint.
Context {X : Type}.
Context (createEnhancementPR :
           list Proposed.t → Summary.t → X → Result PRResult * X).
Implicit Types (w : @World X) (agent : @Agent X) (st : LoopState).
Implicit Types (agents : list (@Agent X)).

(** ** Steps that make no call *)












(** ** The calls of the batch *)





Lemma own_more root docs docs' agents w w' :
  (∀ d, d ∈ docs → d ∈ docs') →
  own root docs agents w w' → own root docs' agents w w'.
Proof.
  intros Hsub Hown Hroot. destruct (Hown Hroot) as (Hroot' & seg & Ht & Ha).
  split; [done|]. exists seg. split; [done|].
  eapply Forall_impl; [exact Ha|]. intros [p|p c|p|p|n h c]; simpl; try done.
  intros [?|(d & Hd & ->)]; [by left|]. right. exists d. split; [auto|done].
Qed.









End Footprint.

(** * The further properties on concrete runs *)



(** X3 on agents [A], [B], [C] of which [B] changes the content: the
    evolution ends with what [B] wrote. *)
Lemma content_evolution_shape_witness :
  ∃ e s w',
    processFileSequentially exOnlyBChanges exDoc ∅ exWorld = (Ok (e, s), w') ∧
    Enhancement.finalContent e = "hello brave world" ∧
    stageContent <$> last (Enhancement.contentEvolution e)
    = Some (Enhancement.finalContent e).
Proof.
  eexists _, _, _. split; [vm_compute; reflexivity|].
  split; [vm_compute; reflexivity|].
  edestruct (content_evolution_shape exOnlyBChanges exDoc ∅ exWorld)
    as (later & _ & Hlast & _); [vm_compute; reflexivity|].
  exact Hlast.
Defined.

(** X6 on a batch of a document on the disk and a missing one, with an
    agent that throws. *)
Lemma valid_batch_always_succeeds_witness :
  ∃ summary ens errs stats w',
    execute exPRTool exBThrows (FilesArray [exDoc; exMissing]) exWorld
    = (Ok (TaskSuccess summary ens errs (Some stats)), w') ∧
    (length ens + length errs = 2)%nat ∧
    is_Some (Summary.githubPR summary).
Proof.
  apply (valid_batch_always_succeeds exPRTool exBThrows [exDoc; exMissing]
           exWorld); done.
Defined.





(** X16 on a team that is not set up, when no agent loads: the mock agent
    processes the one file to enhance. *)
Lemma team_run_always_succeeds_witness :
  ∃ summary ens errs stats team' task w',
    processDocuments exPRTool [] exTeam [exDoc; exFresh] exWorld
    = (Ok (TaskSuccess summary ens errs (Some stats), team'), w') ∧
    team' = initialize [] exTeam ∧
    head (tasks team') = Some task ∧
    (length ens + length errs = 1)%nat ∧
    Summary.agentCount summary = 1%Z.
Proof.
  destruct (team_run_always_succeeds exPRTool [] exTeam [exDoc; exFresh]
              exWorld)
    as (summary & ens & errs & stats & team' & task & w' & Hrun & Hteam
        & Htask & _ & Hlen & _ & Hcount).
  { done. }
  { intros Hinit. vm_compute in Hinit. discriminate. }
  exists summary, ens, errs, stats, team', task, w'.
  split; [exact Hrun|]. split; [exact Hteam|]. split; [exact Htask|].
  split; [exact Hlen|]. rewrite Hcount, Hteam. reflexivity.
Defined.

(** X17 on the document found on the site. *)
Lemma discovered_documents_are_all_skipped_witness :
  ∃ res summary w',
    runRAGProcessing exPRTool exBThrows exDiscovered exWorld = (Ok res, w') ∧
    overallSummary res = TeamAnswer (TaskSuccess summary [] [] None) ∧
    Summary.skipped summary = Some 1%Z ∧
    trace w' = [] ∧ files w' = files exWorld.
Proof.
  destruct (discovered_documents_are_all_skipped exPRTool exBThrows
              exDiscovered exWorld)
    as (res & summary & w' & Hrun & Hsum & Hskip & _ & _ & _ & _ & Htrace
        & Hfiles & _); [done|].
  exists res, summary, w'. by split_and!.
Defined.

(** X18 on an agent that rewrites its working copy. *)
Lemma isolated_run_cleans_up_witness :
  ∃ res w',
    runAgentSafely (exRewriter "B" "hello brave world") "/site/docs/setup.md"
      "hello world" exWorld = (Ok res, w') ∧
    content res = Some "hello brave world" ∧
    files w' !! "/site/.temp-agent-processing/temp-B-0.md" = None ∧
    files w' !! "/site/docs/setup.md" = Some "hello world".
Proof.
  edestruct (isolated_run_cleans_up (exRewriter "B" "hello brave world")
               "/site/docs/setup.md" "hello world" exWorld)
    as (w' & Hrun & Hfiles & Hgone & _); [constructor|reflexivity|].
  eexists _, w'. split; [exact Hrun|]. split; [vm_compute; reflexivity|].
  split; [exact Hgone|]. rewrite Hfiles. vm_compute; reflexivity.
Defined.


(** X21 on a team whose task was given no agent. *)
Lemma team_run_fails_only_without_agents_witness :
  ∃ msg ts team' w',
    processDocuments exPRTool [] exTeamWithoutTaskAgents [exDoc] exWorld
    = (Ok (TaskFailure msg ts, team'), w') ∧
    msg = "No agents available for processing" ∧
    team' = exTeamWithoutTaskAgents.
Proof.
  eexists _, _, _, _. split; [vm_compute; reflexivity|].
  edestruct (proj2 (team_run_fails_only_without_agents exPRTool []
                      exTeamWithoutTaskAgents [exDoc] exWorld))
    as (Hmsg & Hteam & _); [vm_compute; reflexivity|].
  split; [exact Hmsg|exact Hteam].
Defined.
